(** * Mol-MiDial: the MIDI control dispatcher and the logging shim

    A shallow embedding of [molmidial/logger.py] and
    [molmidial/midi/controller.py] (with the dial tables of
    [molmidial/midi/dial]), and the properties of the dispatcher that
    its specification states.

    Python [float] is IEEE 754 binary64: it is modelled by the kernel's
    primitive floats, so every arithmetic step rounds as it does in
    CPython.  Python dictionaries keyed by strings are [gmap string _];
    the mapping table, whose iteration order matters, is an association
    list in insertion order.  [MIDIMapping] objects are mutated in place
    by the controller, so they live in an object store and the table
    holds references to them. *)

From Stdlib Require Import ZArith Floats Bool.
From stdpp Require Import gmap strings list.

Set Warnings "-inexact-float".

(* ===================================================================== *)
(** * Python values used by both modules *)
(* ===================================================================== *)

Module Py.

(** The exception classes the modelled code can meet.  [JSONDecodeError]
    derives from [ValueError]; [SystemExit], [KeyboardInterrupt] and
    [GeneratorExit] derive from [BaseException] only, every other class
    from [Exception]. *)
Inductive exn_class :=
| TypeError | ValueError | JSONDecodeError | RecursionError
| AttributeError | OSError | RuntimeError
| SystemExit | KeyboardInterrupt | GeneratorExit.

(** A raised exception: its class and [str(e)]. *)
Record exn := Exn { exn_type : exn_class; exn_str : string }.

(** [isinstance(e, Exception)]: what [except Exception] catches. *)
Definition is_Exception (e : exn) : bool :=
  match exn_type e with
  | SystemExit | KeyboardInterrupt | GeneratorExit => false
  | _ => true
  end.

(** [isinstance(e, json.JSONDecodeError)]. *)
Definition is_JSONDecodeError (e : exn) : bool :=
  match exn_type e with
  | JSONDecodeError => true
  | _ => false
  end.

(** [isinstance(e, (TypeError, ValueError))]. *)
Definition is_TypeError_or_ValueError (e : exn) : bool :=
  match exn_type e with
  | TypeError | ValueError | JSONDecodeError => true
  | _ => false
  end.

(** The result of calling into code that may raise. *)
Inductive result (A : Type) :=
| Returns (a : A)
| Raises (e : exn).
Arguments Returns {A} a.
Arguments Raises {A} e.

(** [float(z)] as performed by [int / float]: the nearest binary64
    value, ties to even (CPython raises [OverflowError] instead of
    producing an infinity; MIDI data bytes are far below that). *)
Definition float_of_int (z : Z) : float :=
  SF2Prim (binary_normalize prec emax z 0 false).

(** The builtin [max(a, b)] on floats: [b] replaces [a] only when
    [b > a]. *)
Definition max (a b : float) : float :=
  if (a <? b)%float then b else a.

(** [needle in s] on [str]. *)
Fixpoint contains (needle s : string) : bool :=
  String.prefix needle s ||
  match s with
  | EmptyString => false
  | String _ s' => contains needle s'
  end.

(** Zeros and finite numbers, as opposed to infinities and NaN. *)
Inductive SF_finite : spec_float -> Prop :=
| SF_finite_zero s : SF_finite (S754_zero s)
| SF_finite_num s m e : SF_finite (S754_finite s m e).

End Py.

(* ===================================================================== *)
(** * logger.py *)
(* ===================================================================== *)

Module Logger.
Import Py.

(** Levels of the standard [logging] module. *)
Definition DEBUG : Z := 10.
Definition INFO : Z := 20.
Definition WARNING : Z := 30.
Definition ERROR : Z := 40.
Definition CRITICAL : Z := 50.

Definition LOGGING : bool := true.

(** One call [logger.log(level, full_message, stacklevel=...)] on the
    project logger; the backend behind it is outside the module. *)
Record log_call := LogCall {
  levelno : Z;
  full_message : string;
  stacklevel : Z
}.

(** The payload of [Logger.json], typed [Any]: a [str], or any other
    object. *)
Inductive payload (obj : Type) :=
| PyStr (s : string)
| PyObj (o : obj).
Arguments PyStr {obj} s.
Arguments PyObj {obj} o.

Section WithPython.
(** Library functions the module calls: [str.lower], [json.loads]
    and [json.dumps(_, separators=(",", ":"))]. *)
Variable str_lower : string -> string.
Variable obj : Type.
Variable json_loads : string -> result (payload obj).
Variable json_dumps : payload obj -> result string.

Definition LEVEL_EMOJIS_get (level : Z) (default : string) : string :=
  if (level =? DEBUG)%Z then "🔍"
  else if (level =? INFO)%Z then "ℹ️"
  else if (level =? WARNING)%Z then "⚠️"
  else if (level =? ERROR)%Z then "❌"
  else if (level =? CRITICAL)%Z then "💥"
  else default.

Definition get_qc_tag (msg : string) : string :=
  let msg := str_lower msg in
  if contains "success rate" msg then "📊"
  else if contains "updat" msg
          || contains "success" msg
          || contains "passed" msg
          || contains "Enabl" msg
          || contains "Setting up" msg
  then "✅"
  else if contains "fail" msg || contains "error" msg then "❌"
  else " ".

Definition decorate_log_message (message : string) (level : Z) : string :=
  let level_emoji_tag := LEVEL_EMOJIS_get level "🔔" in
  let qc_tag := get_qc_tag message in
  level_emoji_tag +:+ qc_tag +:+ message.

(** [Logger.message(message, level=INFO, stacklevel=3, silent=False)];
    [Logger.debug] and [Logger.info] are the same function. *)
Definition message (message : string) (level stacklevel : Z)
    (silent : bool) (sink : list log_call) : list log_call :=
  let full_message := decorate_log_message message level in
  if LOGGING && negb silent
  then sink ++ [LogCall level full_message stacklevel]
  else sink.

Definition debug := message.
Definition info := message.

(** [Logger.error(message, exception=None, level=ERROR, stacklevel=4,
    silent=False)]; an exception object is truthy. *)
Definition error (msg : string) (exception : option exn)
    (level stacklevel : Z) (silent : bool) (sink : list log_call)
    : list log_call :=
  let msg :=
    match exception with
    | Some e => msg +:+ ": " +:+ exn_str e
    | None => msg
    end in
  message msg level stacklevel silent sink.

(** [Logger.warning]: as [error], with default level [WARNING]. *)
Definition warning (msg : string) (exception : option exn)
    (level stacklevel : Z) (silent : bool) (sink : list log_call)
    : list log_call :=
  let msg :=
    match exception with
    | Some e => msg +:+ ": " +:+ exn_str e
    | None => msg
    end in
  message msg level stacklevel silent sink.

(** [Logger.json(data, silent=False)].  The result is the sink after
    the call and the exception that left the call, if any. *)
Definition json (data : payload obj) (silent : bool)
    (sink : list log_call) : list log_call * option exn :=
  let parsed : result (payload obj) + list log_call :=
    match data with
    | PyStr s =>
        match json_loads s with
        | Returns data => inl (Returns data)
        | Raises e =>
            if is_JSONDecodeError e
            then inr (message "Invalid JSON string provided." WARNING 3 false sink)
            else inl (Raises e)
        end
    | PyObj _ => inl (Returns data)
    end in
  match parsed with
  | inr sink' => (sink', None)
  | inl (Raises e) => (sink, Some e)
  | inl (Returns data) =>
      match json_dumps data with
      | Raises e =>
          if is_TypeError_or_ValueError e
          then (error "Failed to serialize JSON" (Some e) ERROR 4 false sink, None)
          else (sink, Some e)
      | Returns compact_json =>
          if negb silent
          then (message compact_json INFO 3 false sink, None)
          else (sink, None)
      end
  end.

End WithPython.

End Logger.

(* ===================================================================== *)
(** * midi/dial/range.py and midi/dial/settings.py *)
(* ===================================================================== *)

Module Dial.

(** [DialRange] fields are typed [int | float].  The integer entries
    below are small, so they and their differences are exactly
    representable and Python's mixed arithmetic on them agrees with
    the arithmetic on their float values. *)
Record DialRange := mkDialRange { min : float; init : float; max : float }.

Definition as_tuple (r : DialRange) : float * float * float :=
  (min r, init r, max r).

Module DialSettings.
Definition ZOOM := mkDialRange (-320) (-130) 100.

Definition ROT_X := mkDialRange 0 0 360.
Definition ROT_Y := mkDialRange 0 0 360.
Definition ROT_Z := mkDialRange 0 0 360.

Definition TRANSLATE_X := mkDialRange (-60) 0 60.
Definition TRANSLATE_Y := mkDialRange (-60) 0 60.

Definition FOG_DENSITY := mkDialRange 0.0 0.1 0.3.
Definition FOG_NEAR := mkDialRange 30 70 100.
Definition FOG_FAR := mkDialRange 70 100 200.

Definition CLIP_Z := mkDialRange (-100) 20 100.
Definition CLIP_DEPTH := mkDialRange 1.0 50.0 100.0.

Definition get_zoom_range : float * float := (min ZOOM, max ZOOM).
End DialSettings.

End Dial.

(* ===================================================================== *)
(** * midi/controller.py *)
(* ===================================================================== *)

Module MIDI.
Import Py.
Import Dial.

Inductive MIDIControlType := DIAL | SLIDER | BUTTON | KNOB | FADER.

Record MIDIMapping := mkMIDIMapping {
  control_number : Z;
  channel : Z;
  control_type : MIDIControlType;
  target_function : string;
  min_value : float;
  max_value : float;
  target_min : float;
  target_max : float;
  enabled : bool;
  description : string
}.

(** [MIDIMapping(control_number=.., channel=.., control_type=..,
    target_function=.., target_min=.., target_max=.., description=..)]
    with the dataclass defaults for the other fields. *)
Definition new_MIDIMapping (control_number channel : Z)
    (control_type : MIDIControlType) (target_function : string)
    (target_min target_max : float) (description : string) : MIDIMapping :=
  mkMIDIMapping control_number channel control_type target_function
    0.0 127.0 target_min target_max true description.

(** [mapping.enabled = b] *)
Definition set_enabled (b : bool) (m : MIDIMapping) : MIDIMapping :=
  mkMIDIMapping (control_number m) (channel m) (control_type m)
    (target_function m) (min_value m) (max_value m)
    (target_min m) (target_max m) b (description m).

(** A message of the transport, by its [type]. *)
Inductive Message :=
| control_change (msg_channel msg_control msg_value : Z)
| note_on (msg_channel note velocity : Z)
| note_off (msg_channel note velocity : Z)
| other_message (type : string).

(** The texts handed to the logger.  They are f-strings over names,
    floats and exceptions; the text is kept symbolic. *)
Inductive log_text :=
| AddedMapping (name target : string)
| RemovedMapping (name : string)
| SetControlHandler (function_name : string)
| NoHandlerForControl (function_name : string)
| Throttling (function_name : string) (time_since_last : float)
| ControlValue (function_name : string) (value : float)
| ControlMapped (name target : string) (target_value : float)
| ErrorCallingHandler (function_name : string) (e : exn)
| ErrorInLoop (e : exn)
| EnabledMapping (name : string)
| DisabledMapping (name : string)
| SetThrottleInterval (control_name : string) (interval : float)
| ClearedThrottleState
| LibrariesNotAvailable.

(** One call of a registered handler, kept to state what was invoked. *)
Record invocation := Invocation {
  inv_function : string;
  inv_value : float;
  inv_result : result unit
}.

(** ** Dictionaries in insertion order: [self.mappings] *)

Fixpoint dict_get {V} (k : string) (d : list (string * V)) : option V :=
  match d with
  | [] => None
  | (k', v) :: d' => if String.eqb k k' then Some v else dict_get k d'
  end.

(** [d[k] = v]: an existing key keeps its position. *)
Fixpoint dict_set {V} (k : string) (v : V) (d : list (string * V))
    : list (string * V) :=
  match d with
  | [] => [(k, v)]
  | (k', v') :: d' =>
      if String.eqb k k' then (k, v) :: d' else (k', v') :: dict_set k v d'
  end.

(** [del d[k]] *)
Definition dict_del {V} (k : string) (d : list (string * V))
    : list (string * V) :=
  List.filter (fun kv => negb (String.eqb k (fst kv))) d.

(** [_convert_midi_value(self, midi_value, mapping)] *)
Definition _convert_midi_value (midi_value : Z) (mapping : MIDIMapping)
    : float :=
  let normalized := (float_of_int midi_value / 127.0)%float in
  let target_value :=
    (target_min mapping
     + (normalized * (target_max mapping - target_min mapping)))%float in
  target_value.

(** The number of calls of the handler of [f] on record, and the number
    of those that returned. *)
Definition invoked (f : string) (i : invocation) : bool :=
  String.eqb (inv_function i) f.

Definition returned (f : string) (i : invocation) : bool :=
  invoked f i && match inv_result i with Returns _ => true | Raises _ => false end.

Definition invocations_of (f : string) (l : list invocation) : nat :=
  length (List.filter (invoked f) l).

Definition deliveries_of (f : string) (l : list invocation) : nat :=
  length (List.filter (returned f) l).

(** A registered handler receives the value, may change the application
    [W] it acts on, and returns or raises. *)
Abbreviation Handler W := (float -> W -> result unit * W)%type (only parsing).

Section Controller.
(** The application the handlers act on.  A handler changes the
    application, not the controller that calls it. *)
Context {W : Type}.

(** The controller, without the window, the port and the thread handle,
    which the dispatch does not read.  [world], [log] and [calls] stand
    for what the controller acts on: the application, the logger, and
    the calls it made to handlers. *)

Record MIDIController := mkMIDIController {
  is_running : bool;
  objects : list MIDIMapping;          (* the MIDIMapping objects *)
  mappings : list (string * nat);      (* name -> reference *)
  control_handlers : gmap string (Handler W);
  _last_update_times : gmap string float;
  _throttle_interval : float;
  _last_values : gmap string float;
  _expensive_controls : gmap string float;
  world : W;
  log : list (Z * log_text);
  calls : list invocation
}.

Definition set_is_running (b : bool) (self : MIDIController) :=
  mkMIDIController b (objects self) (mappings self)
    (control_handlers self) (_last_update_times self)
    (_throttle_interval self) (_last_values self)
    (_expensive_controls self) (world self) (log self) (calls self).

Definition set_objects (o : list MIDIMapping) (self : MIDIController) :=
  mkMIDIController (is_running self) o (mappings self)
    (control_handlers self) (_last_update_times self)
    (_throttle_interval self) (_last_values self)
    (_expensive_controls self) (world self) (log self) (calls self).

Definition set_mappings (m : list (string * nat)) (self : MIDIController) :=
  mkMIDIController (is_running self) (objects self) m
    (control_handlers self) (_last_update_times self)
    (_throttle_interval self) (_last_values self)
    (_expensive_controls self) (world self) (log self) (calls self).

Definition set_control_handlers (h : gmap string (Handler W))
    (self : MIDIController) :=
  mkMIDIController (is_running self) (objects self) (mappings self)
    h (_last_update_times self)
    (_throttle_interval self) (_last_values self)
    (_expensive_controls self) (world self) (log self) (calls self).

Definition set_throttle_state (times values : gmap string float)
    (self : MIDIController) :=
  mkMIDIController (is_running self) (objects self) (mappings self)
    (control_handlers self) times
    (_throttle_interval self) values
    (_expensive_controls self) (world self) (log self) (calls self).

Definition set_expensive_controls (e : gmap string float)
    (self : MIDIController) :=
  mkMIDIController (is_running self) (objects self) (mappings self)
    (control_handlers self) (_last_update_times self)
    (_throttle_interval self) (_last_values self)
    e (world self) (log self) (calls self).

Definition set_log (l : list (Z * log_text)) (self : MIDIController) :=
  mkMIDIController (is_running self) (objects self) (mappings self)
    (control_handlers self) (_last_update_times self)
    (_throttle_interval self) (_last_values self)
    (_expensive_controls self) (world self) l (calls self).

(** The handler has run: the application is as it left it, and the
    call is on record. *)
Definition called (function_name : string) (value : float)
    (r : result unit) (w : W) (self : MIDIController) :=
  mkMIDIController (is_running self) (objects self) (mappings self)
    (control_handlers self) (_last_update_times self)
    (_throttle_interval self) (_last_values self)
    (_expensive_controls self) w (log self)
    (calls self ++ [Invocation function_name value r]).

(** [log.debug] and [log.info] are [Logger.message], whose level
    defaults to [INFO]; [log.warning] and [log.error] use theirs. *)
Definition emit (level : Z) (text : log_text) (self : MIDIController) :=
  set_log (log self ++ [(level, text)]) self.
Definition log_debug := emit Logger.INFO.
Definition log_info := emit Logger.INFO.
Definition log_warning := emit Logger.WARNING.
Definition log_error := emit Logger.ERROR.

(** Evaluating [MIDIMapping(...)]: a new object and its reference. *)
Definition alloc (m : MIDIMapping) (self : MIDIController)
    : nat * MIDIController :=
  (length (objects self), set_objects (objects self ++ [m]) self).

Definition add_mapping (name : string) (mapping : nat)
    (self : MIDIController) : MIDIController :=
  let self := set_mappings (dict_set name mapping (mappings self)) self in
  match objects self !! mapping with
  | Some m => log_debug (AddedMapping name (target_function m)) self
  | None => self
  end.

Definition remove_mapping (name : string) (self : MIDIController)
    : MIDIController :=
  match dict_get name (mappings self) with
  | Some _ =>
      let self := set_mappings (dict_del name (mappings self)) self in
      log_debug (RemovedMapping name) self
  | None => self
  end.

Definition set_control_handler (function_name : string)
    (handler : Handler W) (self : MIDIController) : MIDIController :=
  let self :=
    set_control_handlers
      (<[function_name := handler]> (control_handlers self)) self in
  log_debug (SetControlHandler function_name) self.

(** [_setup_default_mappings]: fourteen calls
    [self.add_mapping(name, MIDIMapping(...))], in this order. *)
Definition default_mappings : list (string * MIDIMapping) :=
  [ ("zoom",
     new_MIDIMapping 1 0 KNOB "camera_zoom"
       (min DialSettings.ZOOM) (max DialSettings.ZOOM) "Camera Zoom");
    ("rotation_x",
     new_MIDIMapping 2 0 KNOB "camera_rot_x"
       (min DialSettings.ROT_X) (max DialSettings.ROT_X) "X Rotation");
    ("rotation_y",
     new_MIDIMapping 3 0 KNOB "camera_rot_y"
       (min DialSettings.ROT_Y) (max DialSettings.ROT_Y) "Y Rotation");
    ("rotation_z",
     new_MIDIMapping 4 0 KNOB "camera_rot_z"
       (min DialSettings.ROT_Z) (max DialSettings.ROT_Z) "Z Rotation");
    ("translate_x",
     new_MIDIMapping 5 0 FADER "camera_trans_x"
       (min DialSettings.TRANSLATE_X) (max DialSettings.TRANSLATE_X)
       "X Translation");
    ("translate_y",
     new_MIDIMapping 6 0 FADER "camera_trans_y"
       (min DialSettings.TRANSLATE_Y) (max DialSettings.TRANSLATE_Y)
       "Y Translation");
    ("connolly_transparency",
     new_MIDIMapping 7 0 KNOB "connolly_transparency" 0.0 1.0
       "Connolly Surface Transparency");
    ("connolly_probe_radius",
     new_MIDIMapping 8 0 KNOB "connolly_probe_radius" 0.5 3.0
       "Connolly Probe Radius");
    ("fog_density",
     new_MIDIMapping 9 0 KNOB "fog_density"
       (min DialSettings.FOG_DENSITY) (max DialSettings.FOG_DENSITY)
       "Fog Density");
    ("fog_near",
     new_MIDIMapping 11 0 KNOB "fog_near"
       (min DialSettings.FOG_NEAR) (max DialSettings.FOG_NEAR)
       "Fog Near Distance");
    ("fog_far",
     new_MIDIMapping 12 0 KNOB "fog_far"
       (min DialSettings.FOG_FAR) (max DialSettings.FOG_FAR)
       "Fog Far Distance");
    ("clip_z",
     new_MIDIMapping 13 0 KNOB "clip_z"
       (min DialSettings.CLIP_Z) (max DialSettings.CLIP_Z)
       "Clipping Z Position");
    ("clip_depth",
     new_MIDIMapping 14 0 KNOB "clip_depth"
       (min DialSettings.CLIP_DEPTH) (max DialSettings.CLIP_DEPTH)
       "Clipping Depth");
    ("isosurface_level",
     new_MIDIMapping 10 0 KNOB "isosurface_level" 0.01 1.0
       "Isosurface Level") ].

Definition _setup_default_mappings (self : MIDIController)
    : MIDIController :=
  fold_left
    (fun self entry =>
       let '(ref, self) := alloc (snd entry) self in
       add_mapping (fst entry) ref self)
    default_mappings self.

(** [MIDIController.__init__]: [w] is the application the handlers
    will act on. *)
Definition __init__ (MIDI_AVAILABLE : bool) (w : W) : MIDIController :=
  let self :=
    {| is_running := false;
       objects := [];
       mappings := [];
       control_handlers := ∅;
       _last_update_times := ∅;
       _throttle_interval := 0.05;
       _last_values := ∅;
       _expensive_controls :=
         <["isosurface_level" := 0.1%float]>
           (<["connolly_probe_radius" := 0.2%float]>
              (<["connolly_transparency" := 0.2%float]> ∅));
       world := w;
       log := [];
       calls := [] |} in
  let self := _setup_default_mappings self in
  if negb MIDI_AVAILABLE then log_warning LibrariesNotAvailable self
  else self.

(** ** Dispatch *)

(** [self._expensive_controls.get(function_name, self._throttle_interval)] *)
Definition throttle_interval_for (function_name : string)
    (self : MIDIController) : float :=
  default (_throttle_interval self)
    (_expensive_controls self !! function_name).

(** The throttle check of [_call_control_handler]: [Some d] when the
    update is skipped, [d] being the elapsed time. *)
Definition throttled (function_name : string) (current_time : float)
    (self : MIDIController) : option float :=
  match _last_update_times self !! function_name with
  | Some last_update =>
      let throttle_interval := throttle_interval_for function_name self in
      let time_since_last := (current_time - last_update)%float in
      if (time_since_last <? throttle_interval)%float
      then Some time_since_last
      else None
  | None => None
  end.

(** The test [value_change < max(0.001, abs(value) * 0.001)]. *)
Definition below_noise_floor (value last_value : float) : bool :=
  let value_change := abs (value - last_value) in
  (value_change <? Py.max 0.001 (abs value * 0.001))%float.

(** The significance check of [_call_control_handler]. *)
Definition insignificant (function_name : string) (value : float)
    (self : MIDIController) : bool :=
  match _last_values self !! function_name with
  | Some last_value => below_noise_floor value last_value
  | None => false
  end.

(** [_call_control_handler(self, function_name, value)];
    [current_time] is what [time.time()] returns in it.  The second
    component is the exception that leaves the call, if any. *)
Definition _call_control_handler (function_name : string)
    (value : float) (current_time : float) (self : MIDIController)
    : MIDIController * option exn :=
  match control_handlers self !! function_name with
  | None => (log_debug (NoHandlerForControl function_name) self, None)
  | Some handler =>
      match throttled function_name current_time self with
      | Some time_since_last =>
          (log_debug (Throttling function_name time_since_last) self, None)
      | None =>
          if insignificant function_name value self then (self, None)
          else
            let '(r, w) := handler value (world self) in
            let self := called function_name value r w self in
            match r with
            | Returns _ =>
                let self :=
                  set_throttle_state
                    (<[function_name := current_time]>
                       (_last_update_times self))
                    (<[function_name := value]> (_last_values self))
                    self in
                (log_debug (ControlValue function_name value) self, None)
            | Raises e =>
                if is_Exception e
                then (log_error (ErrorCallingHandler function_name e) self,
                      None)
                else (self, Some e)
            end
      end
  end.

(** The loop of [_handle_control_change] over [self.mappings.items()];
    it stops at the first enabled mapping of the control and channel. *)
Fixpoint _handle_control_change_items (control_number' channel' value : Z)
    (current_time : float) (items : list (string * nat))
    (self : MIDIController) : MIDIController * option exn :=
  match items with
  | [] => (self, None)
  | (name, ref) :: items =>
      match objects self !! ref with
      | Some mapping =>
          if (control_number mapping =? control_number')%Z
             && (channel mapping =? channel')%Z
             && enabled mapping
          then
            let target_value := _convert_midi_value value mapping in
            match _call_control_handler (target_function mapping)
                    target_value current_time self with
            | (self, None) =>
                (log_debug
                   (ControlMapped name (target_function mapping)
                      target_value) self,
                 None)
            | (self, Some e) => (self, Some e)
            end
          else
            _handle_control_change_items control_number' channel' value
              current_time items self
      | None =>
          _handle_control_change_items control_number' channel' value
            current_time items self
      end
  end.

(** [_handle_control_change(self, msg)]; a message of another type
    has no [control] attribute. *)
Definition _handle_control_change (msg : Message) (current_time : float)
    (self : MIDIController) : MIDIController * option exn :=
  match msg with
  | control_change channel' control_number' value =>
      _handle_control_change_items control_number' channel' value
        current_time (mappings self) self
  | _ => (self, Some (Exn AttributeError "control"))
  end.

Definition _handle_note_on (msg : Message) (self : MIDIController)
    : MIDIController := self.

Definition _handle_note_off (msg : Message) (self : MIDIController)
    : MIDIController := self.

(** ** The listener loop *)

(** What the listener thread meets while it iterates over the port:
    a message (with the clock reading during its handling), or a write
    of the running flag by the caller thread: the assignment
    [self.is_running = False] of [stop_listening], or the assignment
    [self.is_running = True] of a later [start_listening], which can
    come while this thread is still blocked on the port, since
    [stop_listening] waits for it for a second only.  The iteration
    ends when the port is exhausted or when it raises. *)
Inductive stream_event :=
| yields (current_time : float) (msg : Message)
| stop_flag_written
| start_flag_written.

Inductive stream_end :=
| StopIteration
| stream_raises (e : exn).

(** The [for] statement of [_midi_loop]; the second component is the
    exception raised inside the [try] block, if any. *)
Fixpoint _midi_loop_for (events : list stream_event)
    (ending : stream_end) (self : MIDIController)
    : MIDIController * option exn :=
  match events with
  | [] =>
      match ending with
      | StopIteration => (self, None)
      | stream_raises e => (self, Some e)
      end
  | stop_flag_written :: events =>
      _midi_loop_for events ending (set_is_running false self)
  | start_flag_written :: events =>
      _midi_loop_for events ending (set_is_running true self)
  | yields current_time msg :: events =>
      if negb (is_running self) then (self, None)
      else
        match msg with
        | control_change _ _ _ =>
            match _handle_control_change msg current_time self with
            | (self, None) => _midi_loop_for events ending self
            | (self, Some e) => (self, Some e)
            end
        | note_on _ _ _ =>
            _midi_loop_for events ending (_handle_note_on msg self)
        | note_off _ _ _ =>
            _midi_loop_for events ending (_handle_note_off msg self)
        | other_message _ => _midi_loop_for events ending self
        end
  end.

(** [_midi_loop]: [try: for ... except Exception: log.error(...)
    finally: self.is_running = False].  The second component is the
    exception that ends the thread, if any. *)
Definition _midi_loop (events : list stream_event) (ending : stream_end)
    (self : MIDIController) : MIDIController * option exn :=
  let '(self, raised) := _midi_loop_for events ending self in
  let '(self, raised) :=
    match raised with
    | Some e =>
        if is_Exception e then (log_error (ErrorInLoop e) self, None)
        else (self, Some e)
    | None => (self, None)
    end in
  (set_is_running false self, raised).

(** ** Switches and throttle settings *)

Definition enable_mapping (name : string) (self : MIDIController)
    : MIDIController :=
  match dict_get name (mappings self) with
  | Some ref =>
      let self :=
        set_objects (alter (set_enabled true) ref (objects self)) self in
      log_debug (EnabledMapping name) self
  | None => self
  end.

Definition disable_mapping (name : string) (self : MIDIController)
    : MIDIController :=
  match dict_get name (mappings self) with
  | Some ref =>
      let self :=
        set_objects (alter (set_enabled false) ref (objects self)) self in
      log_debug (DisabledMapping name) self
  | None => self
  end.

Definition is_listening (self : MIDIController) : bool :=
  is_running self.

Definition set_throttle_interval (control_name : string)
    (interval : float) (self : MIDIController) : MIDIController :=
  let self :=
    set_expensive_controls
      (<[control_name := interval]> (_expensive_controls self)) self in
  log_debug (SetThrottleInterval control_name interval) self.

Definition get_throttle_info (self : MIDIController)
    : float * gmap string float :=
  (_throttle_interval self, _expensive_controls self).

Definition clear_throttle_state (self : MIDIController)
    : MIDIController :=
  let self := set_throttle_state ∅ ∅ self in
  log_debug ClearedThrottleState self.

(** ** What a dispatch did *)

(** The outcomes of [_call_control_handler], one per path through it. *)
Inductive dispatch_case (self : MIDIController) (f : string)
    (value now : float) : MIDIController * option exn -> Prop :=
| no_handler :
    control_handlers self !! f = None ->
    dispatch_case self f value now
      (log_debug (NoHandlerForControl f) self, None)
| skipped_by_throttle h d :
    control_handlers self !! f = Some h ->
    throttled f now self = Some d ->
    dispatch_case self f value now (log_debug (Throttling f d) self, None)
| skipped_by_noise_floor h :
    control_handlers self !! f = Some h ->
    throttled f now self = None ->
    insignificant f value self = true ->
    dispatch_case self f value now (self, None)
| delivered h w :
    control_handlers self !! f = Some h ->
    throttled f now self = None ->
    insignificant f value self = false ->
    h value (world self) = (Returns tt, w) ->
    dispatch_case self f value now
      (log_debug (ControlValue f value)
         (set_throttle_state (<[f := now]> (_last_update_times self))
            (<[f := value]> (_last_values self))
            (called f value (Returns tt) w self)), None)
| failed h e w :
    control_handlers self !! f = Some h ->
    throttled f now self = None ->
    insignificant f value self = false ->
    h value (world self) = (Raises e, w) ->
    is_Exception e = true ->
    dispatch_case self f value now
      (log_error (ErrorCallingHandler f e) (called f value (Raises e) w self),
       None)
| escaped h e w :
    control_handlers self !! f = Some h ->
    throttled f now self = None ->
    insignificant f value self = false ->
    h value (world self) = (Raises e, w) ->
    is_Exception e = false ->
    dispatch_case self f value now
      (called f value (Raises e) w self, Some e).

(** ** What handling a control change did *)

(** The body of the loop of [_handle_control_change] for the mapping it
    stops at: conversion, dispatch, and the debug line. *)
Definition dispatch_to (name : string) (mapping : MIDIMapping) (value : Z)
    (current_time : float) (self : MIDIController)
    : MIDIController * option exn :=
  let target_value := _convert_midi_value value mapping in
  match _call_control_handler (target_function mapping) target_value
          current_time self with
  | (self, None) =>
      (log_debug (ControlMapped name (target_function mapping) target_value)
         self,
       None)
  | (self, Some e) => (self, Some e)
  end.

(** The mapping is enabled and listens to this control and channel. *)
Definition listens_to (control_number' channel' : Z) (m : MIDIMapping)
    : Prop :=
  control_number m = control_number' /\ channel m = channel'
  /\ enabled m = true.

End Controller.

(* --------------------------------------------------------------------- *)
(** ** The rest of the controller *)
(* --------------------------------------------------------------------- *)

(** [MIDIControlType.value] *)
Definition control_type_value (t : MIDIControlType) : string :=
  match t with
  | DIAL => "dial"
  | SLIDER => "slider"
  | BUTTON => "button"
  | KNOB => "knob"
  | FADER => "fader"
  end.

(** One entry of the dictionary [get_mapping_info] returns. *)
Record mapping_info := mkMappingInfo {
  info_control_number : Z;
  info_channel : Z;
  info_control_type : string;
  info_target_function : string;
  info_target_range : float * float;
  info_enabled : bool;
  info_description : string
}.

Definition info_of (mapping : MIDIMapping) : mapping_info :=
  {| info_control_number := control_number mapping;
     info_channel := channel mapping;
     info_control_type := control_type_value (control_type mapping);
     info_target_function := target_function mapping;
     info_target_range := (target_min mapping, target_max mapping);
     info_enabled := enabled mapping;
     info_description := description mapping |}.

(** The handlers [create_elmo_midi_controller] registers: the setters of
    the viewer and the closures the function defines over the window. *)
Record ElmoHandlers (W : Type) := mkElmoHandlers {
  set_zoom : Handler W;
  set_rot_x : Handler W;
  set_rot_y : Handler W;
  set_rot_z : Handler W;
  set_trans_x : Handler W;
  set_trans_y : Handler W;
  set_fog_density : Handler W;
  set_fog_near : Handler W;
  set_fog_far : Handler W;
  set_clip_z : Handler W;
  set_clip_depth : Handler W;
  set_isosurface_level : Handler W;
  set_connolly_transparency : Handler W;
  set_connolly_probe_radius : Handler W
}.
Arguments set_zoom {W}.
Arguments set_rot_x {W}.
Arguments set_rot_y {W}.
Arguments set_rot_z {W}.
Arguments set_trans_x {W}.
Arguments set_trans_y {W}.
Arguments set_fog_density {W}.
Arguments set_fog_near {W}.
Arguments set_fog_far {W}.
Arguments set_clip_z {W}.
Arguments set_clip_depth {W}.
Arguments set_isosurface_level {W}.
Arguments set_connolly_transparency {W}.
Arguments set_connolly_probe_radius {W}.

Section MoreController.
Context {W : Type}.

(** [get_mapping_info(self)]: the dictionary is built entry by entry. *)
Definition get_mapping_info (self : @MIDIController W)
    : list (string * mapping_info) :=
  fold_left
    (fun info entry =>
       match objects self !! snd entry with
       | Some mapping => dict_set (fst entry) (info_of mapping) info
       | None => info
       end)
    (mappings self) [].

(** [create_elmo_midi_controller(main_window)]; [glmol] is the viewer of
    the window, [None] when there is no window or it has no viewer. *)
Definition create_elmo_midi_controller (MIDI_AVAILABLE : bool)
    (glmol : option (ElmoHandlers W)) (w : W) : @MIDIController W :=
  let controller := __init__ MIDI_AVAILABLE w in
  match glmol with
  | Some glmol =>
      let controller := set_control_handler "camera_zoom" (set_zoom glmol) controller in
      let controller := set_control_handler "camera_rot_x" (set_rot_x glmol) controller in
      let controller := set_control_handler "camera_rot_y" (set_rot_y glmol) controller in
      let controller := set_control_handler "camera_rot_z" (set_rot_z glmol) controller in
      let controller := set_control_handler "camera_trans_x" (set_trans_x glmol) controller in
      let controller := set_control_handler "camera_trans_y" (set_trans_y glmol) controller in
      let controller := set_control_handler "fog_density" (set_fog_density glmol) controller in
      let controller := set_control_handler "fog_near" (set_fog_near glmol) controller in
      let controller := set_control_handler "fog_far" (set_fog_far glmol) controller in
      let controller := set_control_handler "clip_z" (set_clip_z glmol) controller in
      let controller := set_control_handler "clip_depth" (set_clip_depth glmol) controller in
      let controller :=
        set_control_handler "isosurface_level" (set_isosurface_level glmol)
          controller in
      let controller :=
        set_control_handler "connolly_transparency"
          (set_connolly_transparency glmol) controller in
      let controller :=
        set_control_handler "connolly_probe_radius"
          (set_connolly_probe_radius glmol) controller in
      controller
  | None => controller
  end.

(** *** Notions used to state properties *)

(** The names of the table are those of a dictionary. *)
Definition unique_names (self : @MIDIController W) : Prop :=
  NoDup (mappings self).*1.

(** The control and channel of every enabled entry of the table, in the
    order of the table. *)
Definition enabled_controls (self : @MIDIController W) : list (Z * Z) :=
  omap
    (fun entry : string * nat =>
       match objects self !! snd entry with
       | Some m =>
           if enabled m then Some (control_number m, channel m) else None
       | None => None
       end)
    (mappings self).

(** The two dictionaries of the throttle state have the same keys, and
    every key has a handler. *)
Definition throttle_state_paired (self : @MIDIController W) : Prop :=
  dom (_last_update_times self) = dom (_last_values self)
  /\ dom (_last_values self) ⊆ dom (control_handlers self).


(** A message that is not a control change. *)
Definition is_control_change (msg : Message) : bool :=
  match msg with
  | control_change _ _ _ => true
  | _ => false
  end.

(** The loop reads the running flag when a message arrives, and only
    then: [meets_flag_up flag events] tells whether the next message of
    [events] finds the flag up, [flag] being its value now.  When the
    stream ends before a message arrives the flag is not read. *)
Fixpoint meets_flag_up (flag : bool) (events : list stream_event) : bool :=
  match events with
  | [] => false
  | yields _ _ :: _ => flag
  | stop_flag_written :: events => meets_flag_up false events
  | start_flag_written :: events => meets_flag_up true events
  end.

End MoreController.

(* --------------------------------------------------------------------- *)
(** ** The port *)
(* --------------------------------------------------------------------- *)

(** The texts the port methods hand to the logger. *)
Inductive port_log_text :=
| ErrorListingPorts (e : exn)
| MidiNotAvailable
| ConnectedToPort (port_name : string)
| ErrorConnecting (port_name : string) (e : exn)
| DisconnectedFromMidi
| ErrorDisconnecting (e : exn)
| NoInputConnected
| AlreadyRunning
| StartedListening
| StoppedListening.

Section Port.
(** [Port]: the objects [mido.open_input] returns. *)
Context {W : Type} {Port : Type}.

(** The module constant [MIDI_AVAILABLE]. *)
Variable MIDI_AVAILABLE : bool.

(** The controller with the fields its port methods use: the port, the
    thread handle, the port names and the current port name.  The log
    lines of these methods are kept in [port_log]. *)
Record Listener := mkListener {
  controller : @MIDIController W;
  midi_input : option Port;
  midi_thread : bool;                  (* a thread object was created *)
  available_ports : list string;
  current_port : option string;
  port_log : list (Z * port_log_text)
}.

Definition set_controller (c : @MIDIController W) (self : Listener) :=
  mkListener c (midi_input self) (midi_thread self) (available_ports self)
    (current_port self) (port_log self).

Definition set_port (p : option Port) (name : option string)
    (self : Listener) :=
  mkListener (controller self) p (midi_thread self) (available_ports self)
    name (port_log self).

Definition set_midi_thread (t : bool) (self : Listener) :=
  mkListener (controller self) (midi_input self) t (available_ports self)
    (current_port self) (port_log self).

Definition set_available_ports (l : list string) (self : Listener) :=
  mkListener (controller self) (midi_input self) (midi_thread self) l
    (current_port self) (port_log self).

Definition port_emit (level : Z) (text : port_log_text) (self : Listener) :=
  mkListener (controller self) (midi_input self) (midi_thread self)
    (available_ports self) (current_port self)
    (port_log self ++ [(level, text)]).

(** [list_available_ports(self)]; [names] is what
    [mido.get_input_names()] does in this call. *)
Definition list_available_ports (names : result (list string))
    (self : Listener) : Listener * result (list string) :=
  if negb MIDI_AVAILABLE then (self, Returns [])
  else
    match names with
    | Returns l =>
        let self := set_available_ports l self in
        (self, Returns (available_ports self))
    | Raises e =>
        if is_Exception e
        then (port_emit Logger.ERROR (ErrorListingPorts e) self, Returns [])
        else (self, Raises e)
    end.

(** [disconnect(self)]; [closed] is what [self.midi_input.close()] does
    in this call.  The second component is the exception that leaves the
    call, if any. *)
Definition disconnect (closed : result unit) (self : Listener)
    : Listener * option exn :=
  match midi_input self with
  | Some _ =>
      match closed with
      | Returns _ =>
          let self := set_port None None self in
          (port_emit Logger.INFO DisconnectedFromMidi self, None)
      | Raises e =>
          if is_Exception e
          then (port_emit Logger.ERROR (ErrorDisconnecting e) self, None)
          else (self, Some e)
      end
  | None => (self, None)
  end.

(** [connect_to_port(self, port_name)]; [closed] and [opened] are what
    closing the current port and [mido.open_input(port_name)] do in this
    call. *)
Definition connect_to_port (closed : result unit) (opened : result Port)
    (port_name : string) (self : Listener) : Listener * result bool :=
  if negb MIDI_AVAILABLE
  then (port_emit Logger.ERROR MidiNotAvailable self, Returns false)
  else
    let '(self, raised) :=
      match midi_input self with
      | Some _ => disconnect closed self
      | None => (self, None)
      end in
    let '(self, raised) :=
      match raised with
      | Some e => (self, Some e)
      | None =>
          match opened with
          | Returns p =>
              (set_port (Some p) (Some port_name) self, None)
          | Raises e => (self, Some e)
          end
      end in
    match raised with
    | None =>
        (port_emit Logger.INFO (ConnectedToPort port_name) self, Returns true)
    | Some e =>
        if is_Exception e
        then (port_emit Logger.ERROR (ErrorConnecting port_name e) self,
              Returns false)
        else (self, Raises e)
    end.

(** [start_listening(self)]; [started] is what [self.midi_thread.start()]
    does in this call.  The thread it starts runs [_midi_loop]. *)
Definition start_listening (started : result unit) (self : Listener)
    : Listener * result bool :=
  match midi_input self with
  | None => (port_emit Logger.ERROR NoInputConnected self, Returns false)
  | Some _ =>
      if is_running (controller self)
      then (port_emit Logger.WARNING AlreadyRunning self, Returns false)
      else
        let self :=
          set_controller (set_is_running true (controller self)) self in
        let self := set_midi_thread true self in
        match started with
        | Returns _ =>
            (port_emit Logger.INFO StartedListening self, Returns true)
        | Raises e => (self, Raises e)
        end
  end.

(** [stop_listening(self)]; [joined] is what
    [self.midi_thread.join(timeout=1.0)] does in this call: it waits for
    the thread for at most a second, and raises when the thread cannot be
    joined.  The second component is the exception that leaves the call,
    if any. *)
Definition stop_listening (joined : result unit) (self : Listener)
    : Listener * option exn :=
  let self := set_controller (set_is_running false (controller self)) self in
  if midi_thread self
  then
    match joined with
    | Returns _ => (port_emit Logger.INFO StoppedListening self, None)
    | Raises e => (self, Some e)
    end
  else (port_emit Logger.INFO StoppedListening self, None).

(** [is_connected(self)] *)
Definition is_connected (self : Listener) : bool :=
  match midi_input self, current_port self with
  | Some _, Some _ => true
  | _, _ => false
  end.

(** The port and its name are set together and cleared together. *)
Definition port_fields_agree (self : Listener) : Prop :=
  midi_input self = None <-> current_port self = None.

(** What the listener thread does to the controller of [self]. *)
Definition run_midi_loop (events : list stream_event) (ending : stream_end)
    (self : Listener) : Listener * option exn :=
  let '(c, raised) := _midi_loop events ending (controller self) in
  (set_controller c self, raised).

End Port.

End MIDI.

(* ===================================================================== *)
(** * Notions about text used to state properties of the logger *)
(* ===================================================================== *)

Module Text.

(** An upper-case ASCII letter. *)
Definition is_ascii_upper (c : Ascii.ascii) : bool :=
  let n := Ascii.nat_of_ascii c in
  (65 <=? n)%nat && (n <=? 90)%nat.

(** The characters of a string. *)
Fixpoint chars (s : string) : list Ascii.ascii :=
  match s with
  | EmptyString => []
  | String c s' => c :: chars s'
  end.

(** No upper-case ASCII letter occurs in the result of [lower]: what
    [str.lower] guarantees. *)
Definition lowers (lower : string -> string) : Prop :=
  forall s c, c ∈ chars (lower s) -> is_ascii_upper c = false.

End Text.

(* ===================================================================== *)
(** * Concrete controllers, mappings and handlers used in the examples *)
(* ===================================================================== *)

Module Examples.
Import Py.
Import MIDI.

(** A mapping onto the range [-0.1, 0.3]. *)
Definition offset_mapping : MIDIMapping :=
  new_MIDIMapping 20 0 KNOB "fog_density" (-0.1) 0.3 "Fog Density".

(** The same mapping declared with another source range. *)
Definition offset_mapping_unit_source : MIDIMapping :=
  mkMIDIMapping 20 0 KNOB "fog_density" 0.0 1.0 (-0.1) 0.3 true
    "Fog Density".

(** The zoom mapping of the default table. *)
Definition zoom_mapping : MIDIMapping :=
  new_MIDIMapping 1 0 KNOB "camera_zoom" (-320) 100 "Camera Zoom".

(** Handlers on an application that counts the calls it received. *)
Definition accept : Handler nat := fun _ w => (Returns tt, S w).

Definition reject : Handler nat :=
  fun _ w => (Raises (Exn ValueError "value out of range"), S w).

Definition quit : Handler nat :=
  fun _ w => (Raises (Exn SystemExit "0"), S w).

(** The controller after [__init__], with a handler for the zoom. *)
Definition zoom_controller (h : Handler nat) : MIDIController :=
  set_control_handler "camera_zoom" h (__init__ true 0%nat).

(** The same controller after a zoom value [-110.0] was delivered at
    time [1000.0]. *)
Definition zoom_controller_after_delivery (h : Handler nat)
    : MIDIController :=
  set_throttle_state (<["camera_zoom" := 1000.0%float]> ∅)
    (<["camera_zoom" := (-110.0)%float]> ∅) (zoom_controller h).

(** A controller whose control 1 on channel 0 has a second enabled
    mapping, added after the default table, onto the clipping plane. *)
Definition duplicate_controller : MIDIController :=
  let self := set_control_handler "clip_z" accept (zoom_controller accept) in
  let '(ref, self) :=
    alloc (new_MIDIMapping 1 0 SLIDER "clip_z" (-100) 100
             "Clipping Z Position") self in
  add_mapping "zoom_slider" ref self.

(** ** A small model of the library behind [Logger.json] *)

(** [str.lower] on ASCII text. *)
Definition ascii_lower_char (c : Ascii.ascii) : Ascii.ascii :=
  let n := Ascii.nat_of_ascii c in
  if (65 <=? n)%nat && (n <=? 90)%nat then Ascii.ascii_of_nat (n + 32)
  else c.

Fixpoint ascii_lower (s : string) : string :=
  match s with
  | EmptyString => EmptyString
  | String c s' => String (ascii_lower_char c) (ascii_lower s')
  end.

(** Two payloads that are not [str]: the set [{1, 2}] and the empty
    dictionary. *)
Inductive sample_object := a_set | an_empty_dict.

(** [json.loads] on the JSON text of the empty dictionary and on texts
    that are not JSON. *)
Definition sample_loads (s : string)
    : result (Logger.payload sample_object) :=
  if String.eqb s "{}" then Returns (Logger.PyObj an_empty_dict)
  else Raises (Exn JSONDecodeError "Expecting value: line 1 column 1 (char 0)").

(** [json.dumps]: a set is not serializable; a string without characters
    to escape is put between double quotes. *)
Definition sample_dumps (data : Logger.payload sample_object)
    : result string :=
  match data with
  | Logger.PyObj a_set =>
      Raises (Exn TypeError "Object of type set is not JSON serializable")
  | Logger.PyObj an_empty_dict => Returns "{}"
  | Logger.PyStr s =>
      let quote := String (Ascii.ascii_of_nat 34) EmptyString in
      Returns (quote +:+ s +:+ quote)
  end.

Definition sample_json :=
  Logger.json ascii_lower sample_object sample_loads sample_dumps.

(** ** A controller that is listening *)

Definition listening_controller (h : Handler nat) : MIDIController :=
  set_is_running true (zoom_controller h).

(** ** A listener that holds a port *)

(** The ports of the examples are known by a number. *)
Definition connected_listener : @Listener nat nat :=
  mkListener (zoom_controller accept) (Some 1%nat) false []
    (Some "nanoKONTROL2") [].

End Examples.

(* ===================================================================== *)
(** * Facts about binary64 arithmetic *)
(* ===================================================================== *)

Import Py.
Import MIDI.

Section FloatFacts.

Lemma SFcompare_finite_refl s m e :
  SFcompare (S754_finite s m e) (S754_finite s m e) = Some Eq.
Proof.
  simpl. rewrite Z.compare_refl, Pos.compare_cont_refl.
  destruct s; reflexivity.
Qed.

Lemma is_finite_SF (x : float) :
  is_finite x = true -> SF_finite (Prim2SF x).
Proof.
  unfold is_finite, is_nan, is_infinity.
  rewrite !FloatAxioms.eqb_spec, abs_spec.
  change (Prim2SF infinity) with (S754_infinity false).
  destruct (Prim2SF x) as [s|s| |s m e]; intros H;
    [constructor | destruct s; discriminate | discriminate | constructor].
Qed.

(** A finite difference has a finite subtrahend. *)
Lemma SFsub_finite_r x y : SF_finite (SF64sub x y) -> SF_finite y.
Proof.
  destruct y as [s|s| |s m e]; [constructor | | | constructor];
    destruct x as [s'|s'| |s' m' e']; try destruct s; try destruct s';
    simpl; inversion 1.
Qed.

(** Adding a zero of either sign gives back a number equal to it. *)
Lemma add_signed_zero_eqb (x z : float) s :
  SF_finite (Prim2SF x) -> Prim2SF z = S754_zero s ->
  (x + z =? x)%float = true.
Proof.
  intros Hx Hz. rewrite FloatAxioms.eqb_spec, add_spec, Hz.
  destruct Hx as [sx|sx m e].
  - destruct sx, s; reflexivity.
  - unfold SF64add, SFadd, SFeqb. now rewrite SFcompare_finite_refl.
Qed.

Lemma zero_mul_finite (d : float) :
  SF_finite (Prim2SF d) -> exists s, Prim2SF (0 * d)%float = S754_zero s.
Proof.
  intros Hd. rewrite mul_spec.
  change (Prim2SF 0) with (S754_zero false).
  destruct Hd as [s|s m e]; simpl; eauto.
Qed.

(** Two floats with different decodings are different. *)
Lemma Prim2SF_neq (x y : float) : Prim2SF x <> Prim2SF y -> x <> y.
Proof. intros H ->. now apply H. Qed.

End FloatFacts.

(* ===================================================================== *)
(** * Value conversion *)
(* ===================================================================== *)

Section Conversion.

Lemma convert_midi_value_unfold v m :
  _convert_midi_value v m
  = (target_min m
     + (float_of_int v / 127) * (target_max m - target_min m))%float.
Proof. reflexivity. Qed.

Lemma convert_zero_eqb m :
  is_finite (target_max m - target_min m) = true ->
  (_convert_midi_value 0 m =? target_min m)%float = true.
Proof.
  intros Hfin. apply is_finite_SF in Hfin.
  unfold _convert_midi_value.
  change (float_of_int 0 / 127.0)%float with 0%float.
  destruct (zero_mul_finite _ Hfin) as [s Hs].
  apply add_signed_zero_eqb with s; [|exact Hs].
  rewrite sub_spec in Hfin. now apply SFsub_finite_r in Hfin.
Qed.

Lemma convert_full_scale m :
  _convert_midi_value 127 m
  = (target_min m + 1 * (target_max m - target_min m))%float.
Proof. reflexivity. Qed.

Lemma convert_full_scale_default m :
  In m (List.map snd default_mappings) ->
  _convert_midi_value 127 m = target_max m.
Proof.
  simpl. intros H.
  repeat (destruct H as [<-|H]; [vm_compute; reflexivity|]).
  destruct H.
Qed.

(** C1, as stated, fails: on the range [-0.1, 0.3] the full-scale value
    127 is converted to 0.30000000000000004, which is not the upper
    end of the range. *)
Lemma convert_full_scale_misses_target_max :
  _convert_midi_value 127 Examples.offset_mapping = 0.30000000000000004%float
  /\ (_convert_midi_value 127 Examples.offset_mapping
      =? target_max Examples.offset_mapping)%float = false
  /\ _convert_midi_value 127 Examples.offset_mapping
     <> target_max Examples.offset_mapping.
Proof.
  split; [vm_compute; reflexivity|].
  split; [vm_compute; reflexivity|].
  apply Prim2SF_neq. vm_compute. discriminate.
Qed.

(** C1 (amended): for every raw value [v] in [0,127] and every mapping
    with target range [lo, hi], [_convert_midi_value] returns the
    binary64 value of [lo + (v/127.0)*(hi-lo)], each operation rounded
    to nearest.  At [v = 0] the result equals [lo] whenever [hi - lo]
    is finite.  At [v = 127] the result is [lo + 1.0*(hi - lo)], which
    is exactly [hi] for each mapping of the default table. *)
Theorem convert_midi_value_range (v : Z) (m : MIDIMapping) :
  (0 <= v <= 127)%Z ->
  let lo := target_min m in
  let hi := target_max m in
  _convert_midi_value v m = (lo + (float_of_int v / 127) * (hi - lo))%float
  /\ (v = 0%Z -> is_finite (hi - lo) = true ->
      (_convert_midi_value v m =? lo)%float = true)
  /\ (v = 127%Z ->
      _convert_midi_value v m = (lo + 1 * (hi - lo))%float
      /\ (In m (List.map snd default_mappings) ->
          _convert_midi_value v m = hi)).
Proof.
  intros _ lo hi. split; [reflexivity|]. split.
  - intros ->. apply convert_zero_eqb.
  - intros ->. split; [apply convert_full_scale|].
    apply convert_full_scale_default.
Qed.

Lemma convert_midi_value_range_witness :
  (_convert_midi_value 0 Examples.zoom_mapping
   =? target_min Examples.zoom_mapping)%float = true
  /\ _convert_midi_value 127 Examples.zoom_mapping
     = target_max Examples.zoom_mapping.
Proof.
  split.
  - apply (proj1 (proj2 (convert_midi_value_range 0 Examples.zoom_mapping
                           ltac:(lia)))); reflexivity.
  - apply (proj2 (proj2 (convert_midi_value_range 127 Examples.zoom_mapping
                           ltac:(lia)))); [reflexivity|].
    simpl. left. reflexivity.
Defined.

(** C10: mappings that agree on [target_min] and [target_max], in
    particular mappings that differ only in the source-range fields
    [min_value] and [max_value], convert every raw value to the same
    result, which is computed from the raw value and the target range
    alone with the fixed divisor 127. *)
Theorem convert_ignores_source_range (v : Z) (m1 m2 : MIDIMapping) :
  target_min m1 = target_min m2 ->
  target_max m1 = target_max m2 ->
  _convert_midi_value v m1 = _convert_midi_value v m2
  /\ _convert_midi_value v m1
     = (target_min m1
        + (float_of_int v / 127) * (target_max m1 - target_min m1))%float.
Proof.
  intros Hmin Hmax. unfold _convert_midi_value.
  rewrite Hmin, Hmax. split; reflexivity.
Qed.

Lemma convert_ignores_source_range_witness :
  max_value Examples.offset_mapping
  <> max_value Examples.offset_mapping_unit_source
  /\ _convert_midi_value 64 Examples.offset_mapping
     = _convert_midi_value 64 Examples.offset_mapping_unit_source.
Proof.
  split.
  - apply Prim2SF_neq. vm_compute. discriminate.
  - apply (convert_ignores_source_range 64 Examples.offset_mapping
             Examples.offset_mapping_unit_source); reflexivity.
Defined.

End Conversion.

(* ===================================================================== *)
(** * Dispatch: throttle, noise floor and callback failures *)
(* ===================================================================== *)

Section Dispatch.

Context {W : Type}.
Implicit Types (self : @MIDIController W) (f : string) (h : Handler W).

Lemma call_control_handler_cases self f value now :
  dispatch_case self f value now (_call_control_handler f value now self).
Proof.
  unfold _call_control_handler.
  destruct (control_handlers self !! f) as [h|] eqn:Hh;
    [|by apply no_handler].
  destruct (throttled f now self) as [d|] eqn:Ht;
    [by eapply skipped_by_throttle|].
  destruct (insignificant f value self) eqn:Hi;
    [by eapply skipped_by_noise_floor|].
  destruct (h value (world self)) as [[[]|e] w] eqn:Hc;
    [by apply (delivered self f value now h w)|].
  destruct (is_Exception e) eqn:He;
    [by apply (failed self f value now h e w)
    |by apply (escaped self f value now h e w)].
Qed.

(** Two readings of the same handler entry, and two results of the same
    call, are the same. *)
Ltac same_handler :=
  repeat match goal with
  | H1 : control_handlers ?s !! ?f = Some ?h1,
    H2 : control_handlers ?s !! ?f = Some ?h2 |- _ =>
      rewrite H1 in H2; injection H2 as <-
  | H1 : ?h ?v ?w = (_, _), H2 : ?h ?v ?w = (_, _) |- _ =>
      rewrite H1 in H2; simplify_eq
  end.

(** A dispatch writes neither the tables nor the throttle settings. *)
Lemma call_control_handler_frame self f value now :
  let self' := (_call_control_handler f value now self).1 in
  is_running self' = is_running self
  /\ objects self' = objects self
  /\ mappings self' = mappings self
  /\ control_handlers self' = control_handlers self
  /\ _throttle_interval self' = _throttle_interval self
  /\ _expensive_controls self' = _expensive_controls self.
Proof.
  destruct (call_control_handler_cases self f value now); repeat split.
Qed.

Lemma throttle_interval_for_dispatch self f g value now :
  throttle_interval_for g (_call_control_handler f value now self).1
  = throttle_interval_for g self.
Proof.
  unfold throttle_interval_for.
  destruct (call_control_handler_frame self f value now)
    as (_ & _ & _ & _ & -> & ->).
  reflexivity.
Qed.

Lemma throttle_interval_for_override self f T :
  _expensive_controls self !! f = Some T -> throttle_interval_for f self = T.
Proof. unfold throttle_interval_for. by intros ->. Qed.

Lemma throttle_interval_for_default self f :
  _expensive_controls self !! f = None ->
  throttle_interval_for f self = _throttle_interval self.
Proof. unfold throttle_interval_for. by intros ->. Qed.

Lemma throttle_interval_for_set self f T :
  throttle_interval_for f (set_throttle_interval f T self) = T.
Proof.
  unfold throttle_interval_for, set_throttle_interval. simpl.
  by rewrite lookup_insert_eq.
Qed.

Lemma invocations_of_app f l1 l2 :
  invocations_of f (l1 ++ l2) = invocations_of f l1 + invocations_of f l2.
Proof. unfold invocations_of. by rewrite List.filter_app, length_app. Qed.

Lemma deliveries_of_app f l1 l2 :
  deliveries_of f (l1 ++ l2) = deliveries_of f l1 + deliveries_of f l2.
Proof. unfold deliveries_of. by rewrite List.filter_app, length_app. Qed.

Lemma deliveries_le_invocations f l : deliveries_of f l <= invocations_of f l.
Proof.
  unfold deliveries_of, invocations_of, returned.
  induction l as [|i l IH]; simpl; [lia|].
  destruct (invoked f i); simpl; [|exact IH].
  destruct (inv_result i); simpl; lia.
Qed.

(** One dispatch calls the handler at most once. *)
Lemma call_control_handler_calls self f value now :
  let self' := (_call_control_handler f value now self).1 in
  calls self' = calls self
  \/ exists r, calls self' = calls self ++ [Invocation f value r].
Proof.
  destruct (call_control_handler_cases self f value now); simpl; eauto.
Qed.

Lemma invocations_of_one f value r :
  invocations_of f [Invocation f value r] = 1.
Proof. unfold invocations_of, invoked. simpl. by rewrite String.eqb_refl. Qed.

Lemma call_control_handler_invocations self f value now :
  invocations_of f (calls (_call_control_handler f value now self).1)
  <= S (invocations_of f (calls self)).
Proof.
  destruct (call_control_handler_calls self f value now) as [->|[r ->]];
    [lia|].
  rewrite invocations_of_app, invocations_of_one. lia.
Qed.

(** After a delivery at [t1], an event less than the interval later is
    skipped. *)
Lemma throttled_after_delivery self f t1 t2 values :
  (t2 - t1 <? throttle_interval_for f self)%float = true ->
  throttled f t2
    (set_throttle_state (<[f := t1]> (_last_update_times self)) values self)
  = Some (t2 - t1)%float.
Proof.
  intros Hlt. unfold throttled. simpl. rewrite lookup_insert_eq.
  unfold throttle_interval_for in *. simpl. by rewrite Hlt.
Qed.

(** C3: when [f] has a last delivered value and the new value differs
    from it by less than [max(0.001, abs(value) * 0.001)], the handler
    of [f] is not called, whatever the time elapsed since the last
    delivery; the application and the throttle state stay as they were
    and nothing is raised. *)
Theorem small_change_not_delivered self f value now last_value :
  _last_values self !! f = Some last_value ->
  (abs (value - last_value) <? Py.max 0.001 (abs value * 0.001))%float = true ->
  let r := _call_control_handler f value now self in
  calls r.1 = calls self
  /\ world r.1 = world self
  /\ _last_update_times r.1 = _last_update_times self
  /\ _last_values r.1 = _last_values self
  /\ r.2 = None.
Proof.
  intros Hlast Hsmall.
  assert (Hi : insignificant f value self = true).
  { unfold insignificant. rewrite Hlast. exact Hsmall. }
  simpl. destruct (call_control_handler_cases self f value now);
    try congruence; repeat split.
Qed.

(** C7: a dispatch whose handler raises leaves the last-invocation times
    and the last-delivered values as they were; a dispatch changes either
    of them only by calling the handler, seeing it return, and then
    recording the time and value of this event for [f]. *)
Theorem raising_callback_keeps_throttle_state self f value now :
  let r := _call_control_handler f value now self in
  (forall h e w,
      control_handlers self !! f = Some h ->
      h value (world self) = (Raises e, w) ->
      _last_update_times r.1 = _last_update_times self
      /\ _last_values r.1 = _last_values self)
  /\ (_last_update_times r.1 <> _last_update_times self
      \/ _last_values r.1 <> _last_values self ->
      exists h w,
        control_handlers self !! f = Some h
        /\ h value (world self) = (Returns tt, w)
        /\ calls r.1 = calls self ++ [Invocation f value (Returns tt)]
        /\ _last_update_times r.1 = <[f := now]> (_last_update_times self)
        /\ _last_values r.1 = <[f := value]> (_last_values self)).
Proof.
  simpl. split.
  - intros h0 e0 w0 Hh Hraise.
    destruct (call_control_handler_cases self f value now);
      try (split; reflexivity).
    same_handler.
  - intros Hchanged.
    destruct (call_control_handler_cases self f value now)
      as [ | | |h w Hh _ _ Hret| | ];
      try (exfalso; destruct Hchanged as [Hc|Hc]; apply Hc; reflexivity).
    exists h, w. repeat split; assumption.
Qed.

(** C5 (amended): an exception raised by the handler that is an instance
    of [Exception] does not leave [_call_control_handler]; when the
    handler was called, the error is logged at level [ERROR] with the
    target name and the exception.  The tables, the handlers, the
    throttle settings and the throttle state are as before the event, so
    later events are gated as if it had not happened. *)
Theorem callback_exception_is_caught self f value now h e w :
  control_handlers self !! f = Some h ->
  h value (world self) = (Raises e, w) ->
  is_Exception e = true ->
  let r := _call_control_handler f value now self in
  r.2 = None
  /\ (throttled f now self = None -> insignificant f value self = false ->
      r.1 = log_error (ErrorCallingHandler f e)
              (called f value (Raises e) w self))
  /\ mappings r.1 = mappings self
  /\ objects r.1 = objects self
  /\ control_handlers r.1 = control_handlers self
  /\ (forall g t, throttled g t r.1 = throttled g t self)
  /\ (forall g v, insignificant g v r.1 = insignificant g v self).
Proof.
  intros Hh Hraise He. simpl.
  destruct (call_control_handler_cases self f value now)
    as [ |h' d Hh' Ht|h' Hh' Ht Hi|h' w' Hh' Ht Hi Hc
        |h' e' w' Hh' Ht Hi Hc He'|h' e' w' Hh' Ht Hi Hc He'];
    simpl; same_handler; try (repeat split; congruence).
Qed.

Lemma deliveries_of_raised f value e :
  deliveries_of f [Invocation f value (Raises e)] = 0.
Proof.
  unfold deliveries_of, returned. simpl. by rewrite andb_false_r.
Qed.

Lemma deliveries_of_returned f value :
  deliveries_of f [Invocation f value (Returns tt)] = 1.
Proof.
  unfold deliveries_of, returned, invoked. simpl.
  by rewrite String.eqb_refl.
Qed.

Lemma call_control_handler_deliveries self f value now :
  deliveries_of f (calls (_call_control_handler f value now self).1)
  <= S (deliveries_of f (calls self)).
Proof.
  destruct (call_control_handler_cases self f value now); simpl;
    rewrite ?deliveries_of_app, ?deliveries_of_raised,
      ?deliveries_of_returned; lia.
Qed.

Lemma next_call_deliveries self f value now n :
  deliveries_of f (calls self) <= n ->
  deliveries_of f (calls (_call_control_handler f value now self).1) <= S n.
Proof.
  intros Hn. etrans; [apply call_control_handler_deliveries|]. lia.
Qed.

Lemma next_call_invocations self f value now n :
  invocations_of f (calls self) <= n ->
  invocations_of f (calls (_call_control_handler f value now self).1) <= S n.
Proof.
  intros Hn. etrans; [apply call_control_handler_invocations|]. lia.
Qed.

(** The state after a delivery of [value] to [f] at time [now]. *)
Lemma after_delivery_throttled self f value now w t2 :
  let self' :=
    log_debug (ControlValue f value)
      (set_throttle_state (<[f := now]> (_last_update_times self))
         (<[f := value]> (_last_values self))
         (called f value (Returns tt) w self)) in
  throttled f t2 self'
  = if (t2 - now <? throttle_interval_for f self)%float
    then Some (t2 - now)%float else None.
Proof.
  simpl. unfold throttled, throttle_interval_for. simpl.
  by rewrite lookup_insert_eq.
Qed.

Lemma after_delivery_insignificant self f value now w v2 :
  let self' :=
    log_debug (ControlValue f value)
      (set_throttle_state (<[f := now]> (_last_update_times self))
         (<[f := value]> (_last_values self))
         (called f value (Returns tt) w self)) in
  insignificant f v2 self' = below_noise_floor v2 value.
Proof.
  simpl. unfold insignificant. simpl. by rewrite lookup_insert_eq.
Qed.

(** X4: the throttle and the noise floor are kept per target function:
    a dispatch for another target function leaves what the gates of [f]
    read, its handler, and the calls of the handler of [f] on record, as
    they were, whether the other handler is called, raises, or is
    skipped. *)
Lemma dispatch_other_function self f g value now :
  g <> f ->
  let self' := (_call_control_handler g value now self).1 in
  (forall t, throttled f t self' = throttled f t self)
  /\ (forall v, insignificant f v self' = insignificant f v self)
  /\ control_handlers self' !! f = control_handlers self !! f
  /\ invocations_of f (calls self') = invocations_of f (calls self).
Proof.
  intros Hne.
  assert (Hother : forall r,
             invocations_of f (calls self ++ [Invocation g value r])
             = invocations_of f (calls self)).
  { intros r. rewrite invocations_of_app.
    unfold invocations_of at 2, invoked. simpl.
    destruct (String.eqb_spec g f); [congruence|]. simpl. lia. }
  destruct (call_control_handler_cases self g value now); simpl;
    rewrite ?Hother; try (repeat split; reflexivity).
  unfold throttled, insignificant, throttle_interval_for. simpl.
  repeat split; intros; by rewrite lookup_insert_ne.
Qed.

(** A dispatch that passes both gates calls the handler, once, whatever
    the handler does. *)
Lemma passing_dispatch_calls self f h value now :
  control_handlers self !! f = Some h ->
  throttled f now self = None ->
  insignificant f value self = false ->
  calls (_call_control_handler f value now self).1
  = calls self ++ [Invocation f value (h value (world self)).1].
Proof.
  intros Hh Ht Hi. unfold _call_control_handler. rewrite Hh, Ht, Hi.
  destruct (h value (world self)) as [[[]|e] w]; simpl; [done|].
  by destruct (is_Exception e).
Qed.

(** C2 (amended): let [T] be the throttle interval of [f], the entry of
    [f] in the override dictionary when there is one and the global
    default otherwise, and let two events for [f] be handled at times
    [t1] and [t2].
    When [t2 - t1 < T], at most one of the two is delivered, that is,
    has its handler called and returning; and when the handler returns
    for the first event, the handler is called at most once over the two
    events.  (A handler that raises leaves no trace in the throttle
    state, so it can be called for both.)
    When [t2 - t1 < T] does not hold and each of the two events differs
    from the last delivered value, if there is one when it is handled,
    by enough to pass the noise floor, the handler is called exactly
    once for each of them, whether it returns or raises.  Here the
    first event is taken to pass the throttle; and since a call that
    raises is no delivery, the second event is then measured against
    the delivery before the two, if any, and is taken to come at least
    [T] after it as well. *)
Theorem throttle_two_events self f T v1 v2 t1 t2 :
  T = match _expensive_controls self !! f with
      | Some interval => interval
      | None => _throttle_interval self
      end ->
  let r1 := _call_control_handler f v1 t1 self in
  let r2 := _call_control_handler f v2 t2 r1.1 in
  ((t2 - t1 <? T)%float = true ->
   deliveries_of f (calls r2.1) <= S (deliveries_of f (calls self))
   /\ (forall h w,
         control_handlers self !! f = Some h ->
         h v1 (world self) = (Returns tt, w) ->
         invocations_of f (calls r2.1) <= S (invocations_of f (calls self))))
  /\ ((t2 - t1 <? T)%float = false ->
      forall h,
        control_handlers self !! f = Some h ->
        throttled f t1 self = None ->
        (forall last,
            _last_values self !! f = Some last ->
            (abs (v1 - last) <? Py.max 0.001 (abs v1 * 0.001))%float = false) ->
        (forall last,
            _last_values r1.1 !! f = Some last ->
            (abs (v2 - last) <? Py.max 0.001 (abs v2 * 0.001))%float = false) ->
        (forall e w,
            h v1 (world self) = (Raises e, w) -> throttled f t2 self = None) ->
        calls r2.1
        = calls self
          ++ [Invocation f v1 (h v1 (world self)).1;
              Invocation f v2 (h v2 (world r1.1)).1]
        /\ invocations_of f (calls r2.1) = invocations_of f (calls self) + 2).
Proof.
  intros HT.
  assert (HT' : throttle_interval_for f self = T).
  { rewrite HT. unfold throttle_interval_for.
    by destruct (_expensive_controls self !! f). }
  clear HT. subst T. simpl. split.
  - intros Hlt.
    destruct (call_control_handler_cases self f v1 t1)
      as [Hn|h d Hh Ht|h Hh Ht Hi|h w Hh Ht Hi Hc
          |h e w Hh Ht Hi Hc He|h e w Hh Ht Hi Hc He].
    + split; [by apply next_call_deliveries|].
      intros; by apply next_call_invocations.
    + split; [by apply next_call_deliveries|].
      intros; by apply next_call_invocations.
    + split; [by apply next_call_deliveries|].
      intros; by apply next_call_invocations.
    + (* delivered: the second event is throttled *)
      pose proof (after_delivery_throttled self f v1 t1 w t2) as Hthr.
      simpl in Hthr. rewrite Hlt in Hthr. cbn [fst].
      destruct (call_control_handler_cases
                  (log_debug (ControlValue f v1)
                     (set_throttle_state (<[f := t1]> (_last_update_times self))
                        (<[f := v1]> (_last_values self))
                        (called f v1 (Returns tt) w self))) f v2 t2);
        try congruence; simpl.
      * rewrite deliveries_of_app, deliveries_of_returned.
        rewrite invocations_of_app, invocations_of_one. split; intros; lia.
      * rewrite deliveries_of_app, deliveries_of_returned.
        rewrite invocations_of_app, invocations_of_one. split; intros; lia.
    + split.
      * apply next_call_deliveries. simpl.
        rewrite deliveries_of_app, deliveries_of_raised. lia.
      * intros; same_handler.
    + split.
      * apply next_call_deliveries. simpl.
        rewrite deliveries_of_app, deliveries_of_raised. lia.
      * intros; same_handler.
  - intros Hge h Hh Ht Hnoise1 Hnoise2 Hraise.
    set (r1 := _call_control_handler f v1 t1 self) in *.
    assert (Hi : insignificant f v1 self = false).
    { unfold insignificant.
      destruct (_last_values self !! f) as [last|] eqn:Hlast; [|reflexivity].
      unfold below_noise_floor. by apply Hnoise1. }
    assert (Hcalls1 : calls r1.1
                      = calls self ++ [Invocation f v1 (h v1 (world self)).1])
      by (by apply passing_dispatch_calls).
    assert (Hh1 : control_handlers r1.1 !! f = Some h).
    { destruct (call_control_handler_frame self f v1 t1)
        as (_ & _ & _ & Hsame & _).
      fold r1 in Hsame. by rewrite Hsame. }
    assert (Hi2 : insignificant f v2 r1.1 = false).
    { unfold insignificant.
      destruct (_last_values r1.1 !! f) as [last|] eqn:Hlast; [|reflexivity].
      unfold below_noise_floor. by apply Hnoise2. }
    assert (Ht2 : throttled f t2 r1.1 = None).
    { unfold r1.
      destruct (call_control_handler_cases self f v1 t1)
        as [Hn|h' d Hh' Ht'|h' Hh' Ht' Hi'|h' w1 Hh' Ht' Hi' Hc'
            |h' e w1 Hh' Ht' Hi' Hc' He|h' e w1 Hh' Ht' Hi' Hc' He];
        try congruence; same_handler.
      - cbn [fst]. rewrite after_delivery_throttled. by rewrite Hge.
      - exact (Hraise e w1 Hc').
      - exact (Hraise e w1 Hc'). }
    assert (Hcalls2 : calls (_call_control_handler f v2 t2 r1.1).1
                      = calls r1.1 ++ [Invocation f v2 (h v2 (world r1.1)).1])
      by (by apply passing_dispatch_calls).
    rewrite Hcalls2, Hcalls1, <- app_assoc. split; [reflexivity|].
    rewrite invocations_of_app. simpl.
    unfold invocations_of at 2, invoked. simpl. rewrite String.eqb_refl.
    simpl. lia.
Qed.

End Dispatch.

Section DispatchExamples.

Import Examples.

(** C2, as stated, fails: with the default interval of 0.05 s and a
    handler that raises, two zoom events 0.01 s apart both call the
    handler. *)
Lemma throttle_does_not_bound_raising_callback :
  let f := "camera_zoom" in
  let r1 := _call_control_handler f (-108.0) 1000.0 (zoom_controller reject) in
  let r2 := _call_control_handler f (-50.0) 1000.01 r1.1 in
  throttle_interval_for f (zoom_controller reject) = 0.05%float
  /\ (1000.01 - 1000.0 <? 0.05)%float = true
  /\ invocations_of f (calls (zoom_controller reject)) = 0
  /\ invocations_of f (calls r2.1) = 2.
Proof. vm_compute. repeat split. Qed.

Lemma throttle_two_events_witness :
  (let r1 :=
     _call_control_handler "camera_zoom" (-108.0) 1000.0
       (zoom_controller accept) in
   let r2 := _call_control_handler "camera_zoom" (-50.0) 1000.01 r1.1 in
   deliveries_of "camera_zoom" (calls r2.1) <= 1)
  /\ (let r1 :=
        _call_control_handler "camera_zoom" (-108.0) 1000.0
          (zoom_controller accept) in
      let r2 := _call_control_handler "camera_zoom" (-50.0) 1000.25 r1.1 in
      calls r2.1
      = [Invocation "camera_zoom" (-108.0) (Returns tt);
         Invocation "camera_zoom" (-50.0) (Returns tt)])
  /\ (let r1 :=
        _call_control_handler "camera_zoom" (-108.0) 1000.0
          (zoom_controller reject) in
      let r2 := _call_control_handler "camera_zoom" (-50.0) 1000.25 r1.1 in
      calls r2.1
      = [Invocation "camera_zoom" (-108.0)
           (Raises (Exn ValueError "value out of range"));
         Invocation "camera_zoom" (-50.0)
           (Raises (Exn ValueError "value out of range"))]).
Proof.
  assert (H25 : (1000.25 - 1000.0 <? 0.05)%float = false)
    by (vm_compute; reflexivity).
  split; [|split].
  - assert (H01 : (1000.01 - 1000.0 <? 0.05)%float = true)
      by (vm_compute; reflexivity).
    pose proof (proj1 (proj1 (throttle_two_events (zoom_controller accept)
                  "camera_zoom" 0.05 (-108.0) (-50.0) 1000.0 1000.01
                  ltac:(vm_compute; reflexivity)) H01)) as H.
    vm_compute in H. vm_compute. exact H.
  - assert (Hh : control_handlers (zoom_controller accept) !! "camera_zoom"
                 = Some accept) by (vm_compute; reflexivity).
    assert (Ht : throttled "camera_zoom" 1000.0 (zoom_controller accept)
                 = None) by (vm_compute; reflexivity).
    assert (Hn1 : forall last,
               _last_values (zoom_controller accept) !! "camera_zoom"
               = Some last ->
               (abs (-108.0 - last)
                <? Py.max 0.001 (abs (-108.0) * 0.001))%float = false).
    { intros last Hlast. vm_compute in Hlast. discriminate Hlast. }
    assert (Hn2 : forall last,
               _last_values
                 (_call_control_handler "camera_zoom" (-108.0) 1000.0
                    (zoom_controller accept)).1 !! "camera_zoom"
               = Some last ->
               (abs (-50.0 - last)
                <? Py.max 0.001 (abs (-50.0) * 0.001))%float = false).
    { intros last Hlast. vm_compute in Hlast. injection Hlast as <-.
      vm_compute. reflexivity. }
    assert (Hr : forall e w,
               accept (-108.0)%float (world (zoom_controller accept))
               = (Raises e, w) ->
               throttled "camera_zoom" 1000.25 (zoom_controller accept)
               = None).
    { intros e w _. vm_compute. reflexivity. }
    pose proof (proj1 (proj2 (throttle_two_events (zoom_controller accept)
                  "camera_zoom" 0.05 (-108.0) (-50.0) 1000.0 1000.25
                  ltac:(vm_compute; reflexivity)) H25 accept Hh Ht Hn1 Hn2 Hr))
      as H.
    vm_compute in H. vm_compute. exact H.
  - assert (Hh : control_handlers (zoom_controller reject) !! "camera_zoom"
                 = Some reject) by (vm_compute; reflexivity).
    assert (Ht : throttled "camera_zoom" 1000.0 (zoom_controller reject)
                 = None) by (vm_compute; reflexivity).
    assert (Hn1 : forall last,
               _last_values (zoom_controller reject) !! "camera_zoom"
               = Some last ->
               (abs (-108.0 - last)
                <? Py.max 0.001 (abs (-108.0) * 0.001))%float = false).
    { intros last Hlast. vm_compute in Hlast. discriminate Hlast. }
    assert (Hn2 : forall last,
               _last_values
                 (_call_control_handler "camera_zoom" (-108.0) 1000.0
                    (zoom_controller reject)).1 !! "camera_zoom"
               = Some last ->
               (abs (-50.0 - last)
                <? Py.max 0.001 (abs (-50.0) * 0.001))%float = false).
    { intros last Hlast. vm_compute in Hlast. discriminate Hlast. }
    assert (Hr : forall e w,
               reject (-108.0)%float (world (zoom_controller reject))
               = (Raises e, w) ->
               throttled "camera_zoom" 1000.25 (zoom_controller reject)
               = None).
    { intros e w _. vm_compute. reflexivity. }
    pose proof (proj1 (proj2 (throttle_two_events (zoom_controller reject)
                  "camera_zoom" 0.05 (-108.0) (-50.0) 1000.0 1000.25
                  ltac:(vm_compute; reflexivity)) H25 reject Hh Ht Hn1 Hn2 Hr))
      as H.
    vm_compute in H. vm_compute. exact H.
Defined.

Lemma small_change_not_delivered_witness :
  throttled "camera_zoom" 2000.0 (zoom_controller_after_delivery accept) = None
  /\ calls (_call_control_handler "camera_zoom" (-110.0005) 2000.0
              (zoom_controller_after_delivery accept)).1
     = calls (zoom_controller_after_delivery accept).
Proof.
  split; [vm_compute; reflexivity|].
  pose proof (small_change_not_delivered
                (zoom_controller_after_delivery accept)
                "camera_zoom" (-110.0005) 2000.0 (-110.0)
                ltac:(vm_compute; reflexivity)
                ltac:(vm_compute; reflexivity)) as H.
  apply proj1 in H. vm_compute in H. vm_compute. exact H.
Defined.

Lemma raising_callback_keeps_throttle_state_witness :
  let r :=
    _call_control_handler "camera_zoom" (-50.0) 2000.0
      (zoom_controller_after_delivery reject) in
  calls r.1 = [Invocation "camera_zoom" (-50.0)
                 (Raises (Exn ValueError "value out of range"))]
  /\ _last_update_times r.1
     = _last_update_times (zoom_controller_after_delivery reject)
  /\ _last_values r.1
     = _last_values (zoom_controller_after_delivery reject).
Proof.
  split; [vm_compute; reflexivity|].
  exact (proj1 (raising_callback_keeps_throttle_state
                  (zoom_controller_after_delivery reject)
                  "camera_zoom" (-50.0) 2000.0)
           reject (Exn ValueError "value out of range") 1%nat
           ltac:(vm_compute; reflexivity)
           ltac:(vm_compute; reflexivity)).
Defined.

(** C5, as stated, fails: [SystemExit] raised by the handler leaves
    [_call_control_handler]. *)
Lemma system_exit_leaves_dispatch :
  (_call_control_handler "camera_zoom" (-108.0) 1000.0
     (zoom_controller quit)).2
  = Some (Exn SystemExit "0").
Proof. vm_compute. reflexivity. Qed.

Lemma callback_exception_is_caught_witness :
  let r :=
    _call_control_handler "camera_zoom" (-108.0) 1000.0
      (zoom_controller reject) in
  r.2 = None
  /\ r.1 = log_error
             (ErrorCallingHandler "camera_zoom"
                (Exn ValueError "value out of range"))
             (called "camera_zoom" (-108.0)
                (Raises (Exn ValueError "value out of range")) 1%nat
                (zoom_controller reject)).
Proof.
  pose proof (callback_exception_is_caught (zoom_controller reject)
                "camera_zoom" (-108.0) 1000.0 reject
                (Exn ValueError "value out of range") 1%nat
                ltac:(vm_compute; reflexivity)
                ltac:(vm_compute; reflexivity)
                ltac:(vm_compute; reflexivity)) as (Hnone & Hlog & _).
  split; [exact Hnone|].
  exact (Hlog ltac:(vm_compute; reflexivity) ltac:(vm_compute; reflexivity)).
Defined.

End DispatchExamples.

(* ===================================================================== *)
(** * The mapping table: first match, enabling and disabling *)
(* ===================================================================== *)

Section Table.

Context {W : Type}.
Implicit Types (self : @MIDIController W) (m : MIDIMapping).

Lemma listens_to_test c ch m :
  (control_number m =? c)%Z && (channel m =? ch)%Z && enabled m = true
  <-> listens_to c ch m.
Proof.
  unfold listens_to. rewrite !andb_true_iff, !Z.eqb_eq. tauto.
Qed.

(** Entries that do not listen are passed over. *)
Lemma handle_items_skip c ch v now (pre items : list (string * nat)) self :
  (forall n r m,
      (n, r) ∈ pre -> objects self !! r = Some m -> ~ listens_to c ch m) ->
  _handle_control_change_items c ch v now (pre ++ items) self
  = _handle_control_change_items c ch v now items self.
Proof.
  induction pre as [|[n r] pre IH]; intros Hpre; [reflexivity|].
  simpl. destruct (objects self !! r) as [m|] eqn:Hr.
  - destruct ((control_number m =? c)%Z && (channel m =? ch)%Z && enabled m)
      eqn:Htest.
    + exfalso. apply (Hpre n r m); [left | exact Hr |].
      by apply listens_to_test.
    + apply IH. intros n' r' m' Hin. apply (Hpre n'). by right.
  - apply IH. intros n' r' m' Hin. apply (Hpre n'). by right.
Qed.

(** The loop stops at an entry that listens. *)
Lemma handle_items_hit c ch v now name ref m (items : list (string * nat))
    self :
  objects self !! ref = Some m ->
  listens_to c ch m ->
  _handle_control_change_items c ch v now ((name, ref) :: items) self
  = dispatch_to name m v now self.
Proof.
  intros Hr Hm. apply listens_to_test in Hm.
  simpl. rewrite Hr, Hm. reflexivity.
Qed.

Lemma handle_items_none c ch v now (items : list (string * nat)) self :
  (forall n r m,
      (n, r) ∈ items -> objects self !! r = Some m -> ~ listens_to c ch m) ->
  _handle_control_change_items c ch v now items self = (self, None).
Proof.
  intros H. rewrite <- (app_nil_r items).
  by rewrite handle_items_skip.
Qed.

(** Either some entry listens, and there is a first one, or none does. *)
Lemma first_listener c ch (objs : list MIDIMapping)
    (items : list (string * nat)) :
  (exists pre name ref m post,
      items = pre ++ (name, ref) :: post
      /\ objs !! ref = Some m /\ listens_to c ch m
      /\ forall n r m',
          (n, r) ∈ pre -> objs !! r = Some m' -> ~ listens_to c ch m')
  \/ (forall n r m',
        (n, r) ∈ items -> objs !! r = Some m' -> ~ listens_to c ch m').
Proof.
  induction items as [|[n r] items IH].
  { right. intros n r m' Hin. by apply elem_of_nil in Hin. }
  assert (Hhead : (exists m, objs !! r = Some m /\ listens_to c ch m)
                  \/ (forall m, objs !! r = Some m -> ~ listens_to c ch m)).
  { destruct (objs !! r) as [m|]; [|by right].
    destruct ((control_number m =? c)%Z && (channel m =? ch)%Z && enabled m)
      eqn:Htest.
    - left. exists m. split; [done|]. by apply listens_to_test.
    - right. intros m' [= <-] Hl. apply listens_to_test in Hl. congruence. }
  destruct Hhead as [(m & Hm & Hl)|Hhead].
  { left. exists [], n, r, m, items.
    split; [done|]. split; [done|]. split; [done|].
    intros n' r' m' Hin. by apply elem_of_nil in Hin. }
  destruct IH as [(pre & name & ref & m0 & post & -> & Hm0 & Hl & Hpre)|IH].
  - left. exists ((n, r) :: pre), name, ref, m0, post.
    split; [done|]. split; [done|]. split; [done|].
    intros n' r' m' Hin Hr'.
    apply elem_of_cons in Hin as [[= -> ->]|Hin]; [by apply Hhead|].
    by eapply Hpre.
  - right. intros n' r' m' Hin Hr'.
    apply elem_of_cons in Hin as [[= -> ->]|Hin]; [by apply Hhead|].
    by eapply IH.
Qed.

(** What [dispatch_to] adds to the record of calls. *)
Lemma dispatch_to_calls name m v now self :
  let r := dispatch_to name m v now self in
  calls r.1 = calls self
  \/ exists res,
      calls r.1
      = calls self
        ++ [Invocation (target_function m) (_convert_midi_value v m) res].
Proof.
  unfold dispatch_to.
  destruct (call_control_handler_cases self (target_function m)
              (_convert_midi_value v m) now); simpl; eauto.
Qed.

(** C4: when the first enabled mapping of a control and channel in the
    table is [m], under the name [name], a control change for them is
    handled by the dispatch to the target function of [m] with the value
    converted by [m], whatever mappings follow in the table: the handler
    called, if any, is that of [target_function m], once. *)
Theorem first_match_wins self c ch v now pre name ref m post :
  mappings self = pre ++ (name, ref) :: post ->
  objects self !! ref = Some m ->
  listens_to c ch m ->
  (forall n r m',
      (n, r) ∈ pre -> objects self !! r = Some m' -> ~ listens_to c ch m') ->
  let r := _handle_control_change (control_change ch c v) now self in
  r = dispatch_to name m v now self
  /\ (calls r.1 = calls self
      \/ exists res,
          calls r.1
          = calls self
            ++ [Invocation (target_function m) (_convert_midi_value v m) res]).
Proof.
  intros Htable Hm Hl Hpre. cbv zeta.
  assert (Heq : _handle_control_change (control_change ch c v) now self
                = dispatch_to name m v now self).
  { unfold _handle_control_change. rewrite Htable.
    rewrite handle_items_skip by exact Hpre.
    by apply handle_items_hit. }
  split; [exact Heq|]. rewrite Heq. apply dispatch_to_calls.
Qed.

(** ** Enabling and disabling *)

Lemma dict_get_elem_of {V} (k : string) (v : V) (d : list (string * V)) :
  dict_get k d = Some v -> (k, v) ∈ d.
Proof.
  induction d as [|[k' v'] d IH]; simpl; [done|].
  destruct (String.eqb k k') eqn:Hk.
  - apply String.eqb_eq in Hk as ->. intros [= ->]. by left.
  - intros H. right. by apply IH.
Qed.

Lemma listens_to_set_enabled c ch b m :
  listens_to c ch (set_enabled b m)
  <-> control_number m = c /\ channel m = ch /\ b = true.
Proof. unfold listens_to. simpl. tauto. Qed.

(** C6: a control change is dispatched only on behalf of a mapping of the
    table whose [enabled] flag is true.  After [disable_mapping name], a
    control change that no enabled mapping other than the one called
    [name] listens to is not dispatched: the controller is left as it
    is.  After [enable_mapping name] the control changes of that mapping
    are dispatched to its target function again. *)
Theorem disabled_mapping_not_dispatched self c ch v now :
  (let r := _handle_control_change (control_change ch c v) now self in
   r = (self, None)
   \/ exists name ref m,
       (name, ref) ∈ mappings self
       /\ objects self !! ref = Some m
       /\ control_number m = c /\ channel m = ch /\ enabled m = true
       /\ r = dispatch_to name m v now self)
  /\ (forall name ref,
        dict_get name (mappings self) = Some ref ->
        (forall n r m',
            (n, r) ∈ mappings self -> r <> ref ->
            objects self !! r = Some m' -> enabled m' = true ->
            ~ (control_number m' = c /\ channel m' = ch)) ->
        let off := disable_mapping name self in
        _handle_control_change (control_change ch c v) now off = (off, None)
        /\ forall m,
            objects self !! ref = Some m ->
            control_number m = c -> channel m = ch ->
            let on := enable_mapping name off in
            exists name',
              (name', ref) ∈ mappings self
              /\ _handle_control_change (control_change ch c v) now on
                 = dispatch_to name' (set_enabled true m) v now on).
Proof.
  split.
  - cbv zeta. unfold _handle_control_change.
    destruct (first_listener c ch (objects self) (mappings self))
      as [(pre & name & ref & m & post & Htable & Hm & Hl & Hpre)|Hnone].
    + right. exists name, ref, m. rewrite Htable.
      destruct Hl as (Hc & Hch & Hen).
      repeat split; try done.
      * apply elem_of_app. right. by left.
      * rewrite handle_items_skip by exact Hpre.
        by apply handle_items_hit.
    + left. by apply handle_items_none.
  - intros name ref Hname Hothers.
    assert (Hoff : disable_mapping name self
                   = log_debug (DisabledMapping name)
                       (set_objects
                          (alter (set_enabled false) ref (objects self))
                          self)).
    { unfold disable_mapping. by rewrite Hname. }
    cbv zeta. split.
    + rewrite Hoff. unfold _handle_control_change.
      apply handle_items_none. simpl.
      intros n r m' Hin Hr Hl.
      destruct (decide (r = ref)) as [->|Hne].
      * rewrite list_lookup_alter_eq in Hr.
        destruct (objects self !! ref) as [m0|]; [|done].
        injection Hr as <-.
        apply listens_to_set_enabled in Hl. by destruct Hl as (_ & _ & ?).
      * rewrite list_lookup_alter_ne in Hr by done.
        destruct Hl as (Hc & Hch & Hen). by eapply Hothers.
    + intros m Hm Hc Hch.
      assert (Hon : enable_mapping name (disable_mapping name self)
                    = log_debug (EnabledMapping name)
                        (set_objects
                           (alter (set_enabled true) ref
                              (objects (disable_mapping name self)))
                           (disable_mapping name self))).
      { unfold enable_mapping. rewrite Hoff at 1. simpl.
        by rewrite Hname. }
      rewrite Hon. unfold _handle_control_change.
      set (on := log_debug _ _).
      assert (Hobjs : objects on
                      = alter (set_enabled true) ref
                          (alter (set_enabled false) ref (objects self))).
      { unfold on. rewrite Hoff. reflexivity. }
      assert (Hmaps : mappings on = mappings self).
      { unfold on. rewrite Hoff. reflexivity. }
      assert (Href : objects on !! ref = Some (set_enabled true m)).
      { rewrite Hobjs. rewrite list_lookup_alter_eq.
        rewrite list_lookup_alter_eq. by rewrite Hm. }
      destruct (first_listener c ch (objects on) (mappings on))
        as [(pre & name' & ref' & m' & post & Htable & Hm' & Hl & Hpre)|Hnone].
      * assert (ref' = ref) as ->.
        { destruct (decide (ref' = ref)) as [|Hne]; [done|]. exfalso.
          rewrite Hobjs in Hm'.
          rewrite !list_lookup_alter_ne in Hm' by done.
          destruct Hl as (Hc' & Hch' & Hen').
          eapply (Hothers name' ref' m'); try done.
          rewrite <- Hmaps, Htable. apply elem_of_app. right. by left. }
        rewrite Href in Hm'. injection Hm' as <-.
        exists name'. split.
        -- rewrite <- Hmaps, Htable. apply elem_of_app. right. by left.
        -- rewrite Htable. rewrite handle_items_skip by exact Hpre.
           by apply handle_items_hit.
      * exfalso. apply (Hnone name ref (set_enabled true m)).
        -- rewrite Hmaps. by apply dict_get_elem_of.
        -- exact Href.
        -- by apply listens_to_set_enabled.
Qed.

End Table.

Section TableExamples.

Import Examples.

(** Membership in a table given by its entries. *)
Ltac each_entry H :=
  vm_compute in H;
  repeat (apply elem_of_cons in H as [H|H]; [injection H as -> ->|]);
  [..|apply elem_of_nil in H; destruct H].

Lemma first_match_wins_witness :
  (exists m2,
      objects duplicate_controller !! 14%nat = Some m2
      /\ (("zoom_slider", 14%nat) : string * nat) ∈ mappings duplicate_controller
      /\ listens_to 1 0 m2 /\ target_function m2 = "clip_z")
  /\ _handle_control_change (control_change 0 1 64) 1000.0 duplicate_controller
     = dispatch_to "zoom" zoom_mapping 64 1000.0 duplicate_controller.
Proof.
  split.
  - exists (new_MIDIMapping 1 0 SLIDER "clip_z" (-100) 100
              "Clipping Z Position").
    split; [vm_compute; reflexivity|].
    split; [vm_compute; repeat constructor|].
    split; [repeat split|reflexivity].
  - assert (Htable : mappings duplicate_controller
                     = [] ++ ("zoom", 0%nat)
                          :: tail (mappings duplicate_controller))
      by (vm_compute; reflexivity).
    assert (Hzoom : objects duplicate_controller !! 0%nat = Some zoom_mapping)
      by (vm_compute; reflexivity).
    assert (Hlistens : listens_to 1 0 zoom_mapping) by (repeat split).
    assert (Hpre : forall (n : string) (r : nat) (m' : MIDIMapping),
               (n, r) ∈ ([] : list (string * nat)) ->
               objects duplicate_controller !! r = Some m' ->
               ~ listens_to 1 0 m').
    { intros n r m' Hin. apply elem_of_nil in Hin. destruct Hin. }
    exact (proj1 (first_match_wins duplicate_controller 1 0 64 1000.0
                    [] "zoom" 0%nat zoom_mapping
                    (tail (mappings duplicate_controller))
                    Htable Hzoom Hlistens Hpre)).
Defined.

Lemma disabled_mapping_not_dispatched_witness :
  let self := zoom_controller accept in
  let off := disable_mapping "zoom" self in
  let on := enable_mapping "zoom" off in
  _handle_control_change (control_change 0 1 64) 1000.0 off = (off, None)
  /\ exists name',
      (name', 0%nat) ∈ mappings self
      /\ _handle_control_change (control_change 0 1 64) 1000.0 on
         = dispatch_to name' (set_enabled true zoom_mapping) 64 1000.0 on.
Proof.
  cbv zeta.
  assert (Hothers : forall (n : string) (r : nat) (m' : MIDIMapping),
             (n, r) ∈ mappings (zoom_controller accept) -> r <> 0%nat ->
             objects (zoom_controller accept) !! r = Some m' ->
             enabled m' = true ->
             ~ (control_number m' = 1%Z /\ channel m' = 0%Z)).
  { intros n r m' Hin Hne Hr _ [Hc _].
    each_entry Hin; try (exfalso; apply Hne; reflexivity);
      vm_compute in Hr; injection Hr as <-; discriminate Hc. }
  assert (Hname : dict_get "zoom" (mappings (zoom_controller accept))
                  = Some 0%nat) by (vm_compute; reflexivity).
  assert (Hzoom : objects (zoom_controller accept) !! 0%nat
                  = Some zoom_mapping) by (vm_compute; reflexivity).
  pose proof (proj2 (disabled_mapping_not_dispatched (zoom_controller accept)
                       1 0 64 1000.0) "zoom" 0%nat Hname Hothers)
    as [Hoff Hon].
  split; [exact Hoff|].
  exact (Hon zoom_mapping Hzoom eq_refl eq_refl).
Defined.

End TableExamples.

(* ===================================================================== *)
(** * The listener loop *)
(* ===================================================================== *)

Section Loop.

Context {W : Type}.
Implicit Types (self : @MIDIController W).

(** The stop flag is observed at the next message: the loop breaks and
    the rest of the stream is not read. *)
Lemma midi_loop_stop_flag_observed now msg events ending self :
  _midi_loop (stop_flag_written :: yields now msg :: events) ending self
  = (set_is_running false (set_is_running false self), None).
Proof. reflexivity. Qed.

(** The stream ends. *)
Lemma midi_loop_stream_ended self :
  _midi_loop [] StopIteration self = (set_is_running false self, None).
Proof. reflexivity. Qed.

(** The stream raises: the error is logged when it is an [Exception]. *)
Lemma midi_loop_stream_raised e self :
  _midi_loop [] (stream_raises e) self
  = if is_Exception e
    then (set_is_running false (log_error (ErrorInLoop e) self), None)
    else (set_is_running false self, Some e).
Proof. unfold _midi_loop. simpl. by destruct (is_Exception e). Qed.

(** C8: however the iteration over the port goes (messages, writes of
    the stop flag by the caller, the end of the stream or an exception
    raised by it or by a handler), [_midi_loop] returns with
    [is_running] reset to [False]; an exception that leaves it is not an
    instance of [Exception]. *)
Theorem midi_loop_resets_is_running (events : list stream_event)
    (ending : stream_end) self :
  let r := _midi_loop events ending self in
  is_running r.1 = false
  /\ forall e, r.2 = Some e -> is_Exception e = false.
Proof.
  unfold _midi_loop.
  destruct (_midi_loop_for events ending self) as [self' [e|]].
  - destruct (is_Exception e) eqn:He; simpl.
    + split; [reflexivity|]. intros e' [=].
    + split; [reflexivity|]. by intros e' [= <-].
  - simpl. split; [reflexivity|]. intros e' [=].
Qed.

End Loop.

Section LoopExamples.

Import Examples.

(** A run of the loop: a zoom message is delivered, the caller writes
    the stop flag, and the next message ends the loop. *)
Lemma midi_loop_example :
  let r :=
    _midi_loop
      [yields 1000.0 (control_change 0 1 64); stop_flag_written;
       yields 1001.0 (control_change 0 1 127)]
      StopIteration (listening_controller accept) in
  is_running (listening_controller accept) = true
  /\ is_running r.1 = false
  /\ calls r.1
     = [Invocation "camera_zoom" (-108.34645669291339) (Returns tt)]
  /\ r.2 = None.
Proof. vm_compute. repeat split. Qed.

(** A handler that raises [SystemExit] ends the loop; the flag is reset
    all the same. *)
Lemma midi_loop_system_exit_example :
  let r :=
    _midi_loop
      [yields 1000.0 (control_change 0 1 64);
       yields 1001.0 (control_change 0 1 127)]
      StopIteration (listening_controller quit) in
  is_running r.1 = false
  /\ invocations_of "camera_zoom" (calls r.1) = 1
  /\ r.2 = Some (Exn SystemExit "0").
Proof. vm_compute. repeat split. Qed.

End LoopExamples.

(* ===================================================================== *)
(** * Logger.json *)
(* ===================================================================== *)

Section LoggerJson.

Variable str_lower : string -> string.
Variable obj : Type.
Variable json_loads : string -> result (Logger.payload obj).
Variable json_dumps : Logger.payload obj -> result string.

Let json := Logger.json str_lower obj json_loads json_dumps.
Let decorate_log_message := Logger.decorate_log_message str_lower.

(** C9 (amended): when [json.dumps] raises [TypeError] or [ValueError]
    on the payload (on the value parsed from it when the payload is a
    [str]), [Logger.json] raises nothing and emits no JSON line: its
    only effect is one call of the logger at level [ERROR] with the text
    [Failed to serialize JSON: <exception>].  When the payload is a
    [str] that [json.loads] rejects with [JSONDecodeError], the only
    effect is one call at level [WARNING]. *)
Theorem json_failure_is_logged (data : Logger.payload obj) (silent : bool)
    (sink : list Logger.log_call) :
  (forall data' e,
      match data with
      | Logger.PyStr s => json_loads s = Returns data'
      | Logger.PyObj _ => data' = data
      end ->
      json_dumps data' = Raises e ->
      is_TypeError_or_ValueError e = true ->
      json data silent sink
      = (sink
         ++ [Logger.LogCall Logger.ERROR
               (decorate_log_message
                  ("Failed to serialize JSON" +:+ ": " +:+ exn_str e)
                  Logger.ERROR)
               4],
         None))
  /\ (forall s e,
        data = Logger.PyStr s ->
        json_loads s = Raises e ->
        is_JSONDecodeError e = true ->
        json data silent sink
        = (sink
           ++ [Logger.LogCall Logger.WARNING
                 (decorate_log_message "Invalid JSON string provided."
                    Logger.WARNING)
                 3],
           None)).
Proof.
  subst json decorate_log_message. split.
  - intros data' e Hdata Hdumps He. unfold Logger.json.
    destruct data as [s|o].
    + rewrite Hdata, Hdumps, He. reflexivity.
    + subst data'. rewrite Hdumps, He. reflexivity.
  - intros s e -> Hloads He. unfold Logger.json.
    rewrite Hloads, He. reflexivity.
Qed.

End LoggerJson.

Section LoggerExamples.

Import Examples.

(** C9, as stated, fails: a set is not serializable, and the failure is
    logged at level [ERROR], not [WARNING]. *)
Lemma unserializable_payload_logged_as_error :
  sample_json (Logger.PyObj a_set) false []
  = ([Logger.LogCall Logger.ERROR
        "❌❌Failed to serialize JSON: Object of type set is not JSON serializable"
        4],
     None)
  /\ Logger.ERROR <> Logger.WARNING.
Proof. split; [vm_compute; reflexivity | discriminate]. Qed.

Lemma json_failure_is_logged_witness :
  sample_json (Logger.PyObj a_set) true []
  = ([Logger.LogCall Logger.ERROR
        (Logger.decorate_log_message ascii_lower
           ("Failed to serialize JSON" +:+ ": "
            +:+ "Object of type set is not JSON serializable")
           Logger.ERROR)
        4],
     None)
  /\ sample_json (Logger.PyStr "not json") false []
     = ([Logger.LogCall Logger.WARNING
           (Logger.decorate_log_message ascii_lower
              "Invalid JSON string provided." Logger.WARNING)
           3],
        None).
Proof.
  split.
  - exact (proj1 (json_failure_is_logged ascii_lower sample_object
                    sample_loads sample_dumps (Logger.PyObj a_set) true [])
             (Logger.PyObj a_set)
             (Exn TypeError "Object of type set is not JSON serializable")
             eq_refl eq_refl eq_refl).
  - exact (proj2 (json_failure_is_logged ascii_lower sample_object
                    sample_loads sample_dumps (Logger.PyStr "not json")
                    false [])
             "not json"
             (Exn JSONDecodeError "Expecting value: line 1 column 1 (char 0)")
             eq_refl eq_refl eq_refl).
Defined.

End LoggerExamples.

(* ===================================================================== *)
(** * Further properties: the mapping table as a dictionary *)
(* ===================================================================== *)

Section TableDictionary.

Context {W : Type}.
Implicit Types (self : @MIDIController W).

Lemma dict_get_set_eq {V} (k : string) (v : V) (d : list (string * V)) :
  dict_get k (dict_set k v d) = Some v.
Proof.
  induction d as [|[k' v'] d IH]; simpl.
  - by rewrite String.eqb_refl.
  - destruct (String.eqb k k') eqn:Hk; simpl.
    + by rewrite String.eqb_refl.
    + by rewrite Hk.
Qed.

Lemma dict_get_set_ne {V} (k n : string) (v : V) (d : list (string * V)) :
  n <> k -> dict_get n (dict_set k v d) = dict_get n d.
Proof.
  intros Hne. induction d as [|[k' v'] d IH]; simpl.
  - destruct (String.eqb_spec n k); [done|reflexivity].
  - destruct (String.eqb_spec k k') as [<-|Hk]; simpl.
    + destruct (String.eqb_spec n k); [done|reflexivity].
    + destruct (String.eqb n k'); [reflexivity|exact IH].
Qed.

Lemma dict_get_None {V} (k : string) (d : list (string * V)) :
  dict_get k d = None <-> k ∉ d.*1.
Proof.
  induction d as [|[k' v'] d IH]; simpl.
  - split; [intros _; apply not_elem_of_nil|done].
  - rewrite not_elem_of_cons.
    destruct (String.eqb_spec k k') as [->|Hk]; [split; [done|tauto]|].
    rewrite IH. tauto.
Qed.

Lemma dict_set_keys_present {V} (k : string) (v : V) (d : list (string * V)) :
  k ∈ d.*1 -> (dict_set k v d).*1 = d.*1.
Proof.
  induction d as [|[k' v'] d IH]; simpl.
  - intros H. by apply elem_of_nil in H.
  - intros H. destruct (String.eqb_spec k k') as [->|Hk]; [reflexivity|].
    simpl. f_equal. apply IH.
    apply elem_of_cons in H as [H|H]; [done|exact H].
Qed.

Lemma dict_set_absent {V} (k : string) (v : V) (d : list (string * V)) :
  k ∉ d.*1 -> dict_set k v d = d ++ [(k, v)].
Proof.
  induction d as [|[k' v'] d IH]; simpl; [reflexivity|].
  rewrite not_elem_of_cons. intros [Hk Hd].
  destruct (String.eqb_spec k k'); [done|]. by rewrite IH.
Qed.

Lemma dict_del_keys {V} (k n : string) (d : list (string * V)) :
  n ∈ (dict_del k d).*1 <-> n <> k /\ n ∈ d.*1.
Proof.
  unfold dict_del. induction d as [|[k' v'] d IH]; simpl.
  - split; [intros H; by apply elem_of_nil in H|intros [_ H]; exact H].
  - destruct (String.eqb_spec k k') as [<-|Hk]; simpl.
    + rewrite IH, elem_of_cons. split; [tauto|].
      intros [Hne [->|H]]; [done|tauto].
    + rewrite !elem_of_cons, IH. split.
      * intros [->|[? ?]]; [split; [congruence|by left]|tauto].
      * intros [Hne [->|H]]; [by left|right; tauto].
Qed.

Lemma dict_get_del_ne {V} (k n : string) (d : list (string * V)) :
  n <> k -> dict_get n (dict_del k d) = dict_get n d.
Proof.
  intros Hne. unfold dict_del.
  induction d as [|[k' v'] d IH]; simpl; [reflexivity|].
  destruct (String.eqb_spec k k') as [<-|Hk]; simpl.
  - destruct (String.eqb_spec n k); [done|exact IH].
  - destruct (String.eqb n k'); [reflexivity|exact IH].
Qed.

Lemma dict_del_absent {V} (k : string) (d : list (string * V)) :
  k ∉ d.*1 -> dict_del k d = d.
Proof.
  unfold dict_del. induction d as [|[k' v'] d IH]; simpl; [reflexivity|].
  rewrite not_elem_of_cons. intros [Hk Hd].
  destruct (String.eqb_spec k k'); [done|]. simpl. by rewrite IH.
Qed.

Lemma dict_del_NoDup {V} (k : string) (d : list (string * V)) :
  NoDup d.*1 -> NoDup (dict_del k d).*1.
Proof.
  induction d as [|[k' v'] d IH]; simpl; [done|].
  rewrite NoDup_cons. intros [Hk' Hd]. unfold dict_del. simpl.
  destruct (String.eqb_spec k k'); simpl; [by apply IH|].
  apply NoDup_cons. split; [|by apply IH].
  intros Hin. apply dict_del_keys in Hin. tauto.
Qed.

Lemma dict_set_NoDup {V} (k : string) (v : V) (d : list (string * V)) :
  NoDup d.*1 -> NoDup (dict_set k v d).*1.
Proof.
  intros Hd. destruct (decide (k ∈ d.*1)) as [Hin|Hnin].
  - by rewrite dict_set_keys_present.
  - rewrite dict_set_absent by done. rewrite fmap_app. simpl.
    apply NoDup_app. split; [done|]. split.
    + intros x Hx Hx'. apply list_elem_of_singleton in Hx' as ->. done.
    + apply NoDup_singleton.
Qed.

Lemma add_mapping_mappings name ref self :
  mappings (add_mapping name ref self) = dict_set name ref (mappings self).
Proof.
  unfold add_mapping. simpl. by destruct (objects self !! ref).
Qed.

Lemma remove_mapping_mappings name self :
  mappings (remove_mapping name self) = dict_del name (mappings self).
Proof.
  unfold remove_mapping.
  destruct (dict_get name (mappings self)) eqn:Hget; [reflexivity|].
  symmetry. apply dict_del_absent. by apply dict_get_None.
Qed.

(** X1: [add_mapping] writes the table as a dictionary: the name now
    refers to the given mapping and every other name to what it referred
    to; a name that was in the table keeps its place, so the order of
    the names is unchanged, and a new name goes to the end; no name
    occurs twice. *)
Theorem add_mapping_replaces_in_place name ref self :
  dict_get name (mappings (add_mapping name ref self)) = Some ref
  /\ (forall n, n <> name ->
        dict_get n (mappings (add_mapping name ref self))
        = dict_get n (mappings self))
  /\ (name ∈ (mappings self).*1 ->
      (mappings (add_mapping name ref self)).*1 = (mappings self).*1)
  /\ (name ∉ (mappings self).*1 ->
      mappings (add_mapping name ref self) = mappings self ++ [(name, ref)])
  /\ (unique_names self -> unique_names (add_mapping name ref self)).
Proof.
  unfold unique_names. rewrite add_mapping_mappings.
  split; [apply dict_get_set_eq|].
  split; [intros n Hn; by apply dict_get_set_ne|].
  split; [apply dict_set_keys_present|].
  split; [apply dict_set_absent|apply dict_set_NoDup].
Qed.

(** X2: [remove_mapping] takes the name out of the table and nothing
    else: the other names refer to what they referred to, in the same
    order; the mapping objects are untouched; removing a name that is
    not in the table changes nothing, not even the log. *)
Theorem remove_mapping_removes_only_name name self :
  dict_get name (mappings (remove_mapping name self)) = None
  /\ (forall n, n <> name ->
        dict_get n (mappings (remove_mapping name self))
        = dict_get n (mappings self))
  /\ objects (remove_mapping name self) = objects self
  /\ (dict_get name (mappings self) = None ->
      remove_mapping name self = self)
  /\ (unique_names self -> unique_names (remove_mapping name self)).
Proof.
  unfold unique_names. rewrite remove_mapping_mappings.
  split.
  { apply dict_get_None. intros Hin. apply dict_del_keys in Hin. tauto. }
  split; [intros n Hn; by apply dict_get_del_ne|].
  split.
  { unfold remove_mapping. by destruct (dict_get name (mappings self)). }
  split; [|apply dict_del_NoDup].
  intros Hget. unfold remove_mapping. by rewrite Hget.
Qed.

(** X3: removing a mapping and adding it again under the same name moves
    it to the end of the table, behind every mapping it used to come
    before. *)
Theorem readded_mapping_goes_last name ref self :
  mappings (add_mapping name ref (remove_mapping name self))
  = dict_del name (mappings self) ++ [(name, ref)].
Proof.
  rewrite add_mapping_mappings, remove_mapping_mappings.
  apply dict_set_absent. intros Hin. apply dict_del_keys in Hin. tauto.
Qed.

End TableDictionary.

(* ===================================================================== *)
(** * Further properties: dispatch and the listener loop *)
(* ===================================================================== *)

Section MoreDispatch.

Context {W : Type}.
Implicit Types (self : @MIDIController W) (f : string).

(** Handling a control change is either nothing, when no entry of the
    table listens, or the dispatch to the first entry that does. *)
Lemma handle_control_change_cases self c ch v now :
  (_handle_control_change (control_change ch c v) now self = (self, None)
   /\ forall n r m',
       (n, r) ∈ mappings self -> objects self !! r = Some m' ->
       ~ listens_to c ch m')
  \/ exists pre name ref m post,
      mappings self = pre ++ (name, ref) :: post
      /\ objects self !! ref = Some m /\ listens_to c ch m
      /\ (forall n r m',
            (n, r) ∈ pre -> objects self !! r = Some m' ->
            ~ listens_to c ch m')
      /\ _handle_control_change (control_change ch c v) now self
         = dispatch_to name m v now self.
Proof.
  unfold _handle_control_change.
  destruct (first_listener c ch (objects self) (mappings self))
    as [(pre & name & ref & m & post & Htable & Hm & Hl & Hpre)|Hnone].
  - right. exists pre, name, ref, m, post. rewrite Htable.
    split; [done|]. split; [done|]. split; [done|]. split; [done|].
    rewrite handle_items_skip by exact Hpre. by apply handle_items_hit.
  - left. split; [by apply handle_items_none|done].
Qed.

(** X5: after [clear_throttle_state] the next event for any function that
    has a handler calls the handler, once, whatever its value and time:
    also an update that the noise floor or the throttle had been
    suppressing. *)
Theorem clear_throttle_state_delivers_next self f (h : Handler W) value now :
  control_handlers self !! f = Some h ->
  let r := _call_control_handler f value now (clear_throttle_state self) in
  calls r.1 = calls self ++ [Invocation f value (h value (world self)).1]
  /\ world r.1 = (h value (world self)).2.
Proof.
  intros Hh. cbv zeta. unfold _call_control_handler, clear_throttle_state.
  simpl. rewrite Hh. unfold throttled, insignificant. simpl.
  rewrite !lookup_empty.
  destruct (h value (world self)) as [[[]|e] w]; simpl; [done|].
  by destruct (is_Exception e).
Qed.

(** X6: a control change whose listening mappings have no handler calls
    nothing, raises nothing and leaves the application and the throttle
    state alone. *)
Theorem unhandled_control_change_is_skipped self c ch v now :
  (forall name ref m,
      (name, ref) ∈ mappings self -> objects self !! ref = Some m ->
      listens_to c ch m -> control_handlers self !! target_function m = None) ->
  let r := _handle_control_change (control_change ch c v) now self in
  r.2 = None
  /\ calls r.1 = calls self
  /\ world r.1 = world self
  /\ _last_update_times r.1 = _last_update_times self
  /\ _last_values r.1 = _last_values self.
Proof.
  intros Hnone. cbv zeta.
  destruct (handle_control_change_cases self c ch v now)
    as [[-> _]|(pre & name & ref & m & post & Htable & Hm & Hl & _ & ->)];
    [repeat split|].
  assert (Hh : control_handlers self !! target_function m = None).
  { apply (Hnone name ref m); [|done|done].
    rewrite Htable. apply elem_of_app. right. by left. }
  unfold dispatch_to, _call_control_handler. rewrite Hh. repeat split.
Qed.

(** X7: [set_throttle_interval] takes effect at the next event for that
    function: with a last delivery at [last], the event is skipped when
    less than the new interval has passed, whatever the default and an
    earlier override say, and is delivered when the interval has passed
    and the value is significant; the intervals of the other functions
    are as before. *)
Theorem set_throttle_interval_governs_next_event self f T (h : Handler W)
    value now last :
  control_handlers self !! f = Some h ->
  _last_update_times self !! f = Some last ->
  let r := _call_control_handler f value now (set_throttle_interval f T self) in
  ((now - last <? T)%float = true ->
   calls r.1 = calls self /\ world r.1 = world self /\ r.2 = None)
  /\ ((now - last <? T)%float = false ->
      insignificant f value self = false ->
      calls r.1 = calls self ++ [Invocation f value (h value (world self)).1])
  /\ (forall g, g <> f ->
        throttle_interval_for g (set_throttle_interval f T self)
        = throttle_interval_for g self).
Proof.
  intros Hh Hlast. cbv zeta.
  set (self' := set_throttle_interval f T self).
  assert (Ht : throttled f now self'
               = if (now - last <? T)%float then Some (now - last)%float
                 else None).
  { unfold throttled, throttle_interval_for, self', set_throttle_interval.
    simpl. by rewrite Hlast, lookup_insert_eq. }
  assert (Hi : insignificant f value self' = insignificant f value self)
    by reflexivity.
  assert (Hh' : control_handlers self' !! f = Some h) by exact Hh.
  unfold _call_control_handler. rewrite Hh', Ht, Hi.
  split; [|split].
  - intros ->. repeat split.
  - intros -> ->. change (world self') with (world self).
    destruct (h value (world self)) as [[[]|e] w]; simpl; [done|].
    by destruct (is_Exception e).
  - intros g Hg. unfold throttle_interval_for, self', set_throttle_interval.
    simpl. by rewrite lookup_insert_ne.
Qed.

(** A new controller has no throttle state. *)
Lemma init_throttle_state_paired (MIDI_AVAILABLE : bool) (w : W) :
  throttle_state_paired (__init__ MIDI_AVAILABLE w).
Proof.
  assert (Ht : _last_update_times (__init__ MIDI_AVAILABLE w) = ∅)
    by (destruct MIDI_AVAILABLE; vm_compute; reflexivity).
  assert (Hv : _last_values (__init__ MIDI_AVAILABLE w) = ∅)
    by (destruct MIDI_AVAILABLE; vm_compute; reflexivity).
  unfold throttle_state_paired. rewrite Ht, Hv, !dom_empty_L.
  split; [reflexivity|]. apply empty_subseteq.
Qed.

(** One dispatch keeps the two dictionaries of the throttle state on the
    same keys, all of them with a handler. *)
Lemma call_control_handler_paired self f value now :
  throttle_state_paired self ->
  throttle_state_paired (_call_control_handler f value now self).1.
Proof.
  intros [Hdom Hsub].
  destruct (call_control_handler_cases self f value now)
    as [ | | |h w Hh _ _ _| | ]; try (split; assumption).
  unfold throttle_state_paired. simpl. rewrite !dom_insert_L, Hdom.
  split; [reflexivity|].
  apply union_subseteq. split; [|exact Hsub].
  apply singleton_subseteq_l. apply elem_of_dom. eauto.
Qed.


End MoreDispatch.

Section MoreLoop.

Context {W : Type}.
Implicit Types (self : @MIDIController W).

(** What every dispatch, log line and write of the running flag keeps,
    the whole loop keeps. *)
Lemma midi_loop_preserves (P : @MIDIController W -> Prop) :
  (forall self f value now,
      P self -> P (_call_control_handler f value now self).1) ->
  (forall self level text, P self -> P (emit level text self)) ->
  (forall self b, P self -> P (set_is_running b self)) ->
  forall events ending self, P self -> P (_midi_loop events ending self).1.
Proof.
  intros Hcall Hemit Hrun events ending.
  assert (Hdispatch : forall name m v now self,
             P self -> P (dispatch_to name m v now self).1).
  { intros name m v now self HP. unfold dispatch_to.
    pose proof (Hcall self (target_function m) (_convert_midi_value v m) now HP)
      as Hc.
    destruct (_call_control_handler _ _ _ _) as [s' [e|]]; simpl in *;
      [exact Hc|by apply Hemit]. }
  assert (Hhandle : forall msg now self,
             P self -> P (_handle_control_change msg now self).1).
  { intros [ch c v| | |] now self HP; try exact HP.
    destruct (handle_control_change_cases self c ch v now)
      as [[-> _]|(pre & name & ref & m & post & _ & _ & _ & _ & ->)];
      [exact HP|by apply Hdispatch]. }
  assert (Hfor : forall self, P self -> P (_midi_loop_for events ending self).1).
  { induction events as [|[now msg| |] events IH]; intros self HP; simpl.
    - by destruct ending.
    - destruct (is_running self); simpl; [|exact HP].
      destruct msg as [ch c v| | |]; try by apply IH.
      pose proof (Hhandle (control_change ch c v) now self HP) as Hh.
      destruct (_handle_control_change _ _ _) as [s' [e|]]; simpl in *;
        [exact Hh|by apply IH].
    - apply IH. by apply Hrun.
    - apply IH. by apply Hrun. }
  intros self HP. unfold _midi_loop.
  pose proof (Hfor self HP) as Hf.
  destruct (_midi_loop_for events ending self) as [s' [e|]]; simpl in *.
  - destruct (is_Exception e); simpl; apply Hrun; [by apply Hemit|exact Hf].
  - by apply Hrun.
Qed.

(** X8: the listener loop reads the mapping table, the mapping objects,
    the handlers and the throttle intervals and never writes them,
    whatever the stream holds and however the handlers behave. *)
Theorem midi_loop_keeps_configuration (events : list stream_event)
    (ending : stream_end) self :
  let self' := (_midi_loop events ending self).1 in
  objects self' = objects self
  /\ mappings self' = mappings self
  /\ control_handlers self' = control_handlers self
  /\ _throttle_interval self' = _throttle_interval self
  /\ _expensive_controls self' = _expensive_controls self.
Proof.
  cbv zeta.
  apply (midi_loop_preserves
           (fun s => objects s = objects self
                     /\ mappings s = mappings self
                     /\ control_handlers s = control_handlers self
                     /\ _throttle_interval s = _throttle_interval self
                     /\ _expensive_controls s = _expensive_controls self)).
  - intros s f value now (H1 & H2 & H3 & H4 & H5).
    destruct (call_control_handler_frame s f value now)
      as (_ & -> & -> & -> & -> & ->).
    done.
  - intros s level text H. exact H.
  - intros s b H. exact H.
  - done.
Qed.

(** X9: the keys of the last-update times and of the last values are the
    same, and each has a handler: this holds after [__init__], and
    every method that writes the throttle state or the handlers, and the
    whole listener loop, keep it. *)
Theorem throttle_state_stays_paired (events : list stream_event)
    (ending : stream_end) self :
  (forall MIDI_AVAILABLE (w : W),
      throttle_state_paired (__init__ MIDI_AVAILABLE w))
  /\ (throttle_state_paired self ->
      throttle_state_paired (_midi_loop events ending self).1
      /\ throttle_state_paired (clear_throttle_state self)
      /\ (forall f h, throttle_state_paired (set_control_handler f h self))
      /\ (forall f T, throttle_state_paired (set_throttle_interval f T self))
      /\ (forall f value now,
            throttle_state_paired (_call_control_handler f value now self).1)).
Proof.
  split; [apply init_throttle_state_paired|].
  intros Hp. split.
  { apply (midi_loop_preserves throttle_state_paired); try done.
    intros s f value now. apply call_control_handler_paired. }
  split.
  { unfold throttle_state_paired, clear_throttle_state. simpl.
    rewrite !dom_empty_L. split; [reflexivity|]. apply empty_subseteq. }
  split.
  { intros f h. destruct Hp as [Hdom Hsub].
    unfold throttle_state_paired, set_control_handler. simpl.
    split; [exact Hdom|]. rewrite dom_insert_L.
    etrans; [exact Hsub|]. apply union_subseteq_r. }
  split; [intros f T; exact Hp|].
  intros f value now. by apply call_control_handler_paired.
Qed.

(** X10: messages that are not control changes (note on, note off and the
    other types) have no effect: a stream of them is handled like the
    empty stream. *)
Theorem other_messages_have_no_effect (events : list stream_event)
    (ending : stream_end) self :
  is_running self = true ->
  Forall (fun ev =>
            match ev with
            | yields _ msg => is_control_change msg = false
            | stop_flag_written | start_flag_written => False
            end) events ->
  _midi_loop events ending self = _midi_loop [] ending self.
Proof.
  intros Hrun Hall. unfold _midi_loop.
  assert (Hfor : _midi_loop_for events ending self
                 = _midi_loop_for [] ending self).
  { induction Hall as [|[now msg| |] events Hev _ IH];
      [reflexivity| |done|done].
    simpl. rewrite Hrun. simpl.
    destruct msg; [discriminate Hev|exact IH..]. }
  by rewrite Hfor.
Qed.

(** The flag stays down for a loop that is entered with it down and
    meets no [start_listening] of the caller. *)
Lemma meets_flag_up_not_restarted (events : list stream_event) :
  start_flag_written ∉ events -> meets_flag_up false events = false.
Proof.
  induction events as [|[now msg| |] events IH]; intros Hnot; simpl;
    try reflexivity.
  - apply IH. intros Hin. apply Hnot. by right.
  - exfalso. apply Hnot. by left.
Qed.

(** X11: the loop reads the running flag when a message arrives.  When
    the next message finds the flag down (as it does when the flag is
    down now and the caller does not call [start_listening] before the
    message arrives) the loop ends there: whatever the rest of the
    stream, no handler is called and the application and the throttle
    state stay as they are. *)
Theorem stopped_loop_dispatches_nothing (events : list stream_event)
    (ending : stream_end) self :
  meets_flag_up (is_running self) events = false ->
  let r := _midi_loop events ending self in
  calls r.1 = calls self
  /\ world r.1 = world self
  /\ _last_update_times r.1 = _last_update_times self
  /\ _last_values r.1 = _last_values self.
Proof.
  intros Hflag. cbv zeta. unfold _midi_loop.
  assert (Hfor : exists s raised,
             _midi_loop_for events ending self = (s, raised)
             /\ calls s = calls self /\ world s = world self
             /\ _last_update_times s = _last_update_times self
             /\ _last_values s = _last_values self).
  { revert self Hflag.
    induction events as [|[now msg| |] events IH]; intros self Hflag;
      simpl in *.
    - destruct ending; eexists _, _; repeat split.
    - rewrite Hflag. simpl. eexists _, _; repeat split.
    - destruct (IH (set_is_running false self) Hflag)
        as (s & raised & -> & H1 & H2 & H3 & H4).
      by exists s, raised.
    - destruct (IH (set_is_running true self) Hflag)
        as (s & raised & -> & H1 & H2 & H3 & H4).
      by exists s, raised. }
  destruct Hfor as (s & raised & -> & H1 & H2 & H3 & H4).
  destruct raised as [e|]; [destruct (is_Exception e)|]; simpl; done.
Qed.


(** When no two enabled entries share a control and channel, an entry
    that listens is the first one that does. *)
Lemma listener_is_first self c ch pre name0 ref0 m0 post name ref m :
  NoDup (enabled_controls self) ->
  mappings self = pre ++ (name0, ref0) :: post ->
  objects self !! ref0 = Some m0 -> listens_to c ch m0 ->
  (forall n r m',
      (n, r) ∈ pre -> objects self !! r = Some m' -> ~ listens_to c ch m') ->
  (name, ref) ∈ mappings self ->
  objects self !! ref = Some m -> listens_to c ch m ->
  name = name0 /\ m = m0.
Proof.
  intros Hnodup Htable Hm0 Hl0 Hpre Hin Hm Hl.
  unfold enabled_controls in Hnodup.
  set (g := fun entry : string * nat =>
              match objects self !! snd entry with
              | Some m0 =>
                  if enabled m0 then Some (control_number m0, channel m0)
                  else None
              | None => None
              end) in Hnodup.
  assert (Hg : forall (n : string) (r : nat) m',
             objects self !! r = Some m' -> listens_to c ch m' ->
             g (n, r) = Some (c, ch)).
  { intros n r m' Hr (<- & <- & Hen). unfold g. simpl. by rewrite Hr, Hen. }
  rewrite Htable in Hin.
  apply elem_of_app in Hin as [Hin|Hin].
  { exfalso. by apply (Hpre name ref m). }
  apply elem_of_cons in Hin as [[= -> ->]|Hin].
  { rewrite Hm in Hm0. by injection Hm0 as <-. }
  exfalso. rewrite Htable, omap_app in Hnodup.
  change (omap g ((name0, ref0) :: post))
    with (match g (name0, ref0) with
          | Some y => y :: omap g post
          | None => omap g post
          end) in Hnodup.
  rewrite (Hg name0 ref0 m0 Hm0 Hl0) in Hnodup.
  apply NoDup_app in Hnodup as (_ & _ & Hnodup).
  apply NoDup_cons in Hnodup as [Hnotin _].
  apply Hnotin. apply list_elem_of_omap.
  exists (name, ref). split; [exact Hin|]. by apply (Hg name ref m).
Qed.

Lemma handle_control_change_listener self c ch v now name ref m :
  NoDup (enabled_controls self) ->
  (name, ref) ∈ mappings self ->
  objects self !! ref = Some m ->
  listens_to c ch m ->
  _handle_control_change (control_change ch c v) now self
  = dispatch_to name m v now self.
Proof.
  intros Hnodup Hin Hm Hl.
  destruct (handle_control_change_cases self c ch v now)
    as [[_ Hnone]|(pre & name0 & ref0 & m0 & post & Htable & Hm0 & Hl0
                   & Hpre & ->)].
  { exfalso. by apply (Hnone name ref m). }
  by destruct (listener_is_first self c ch pre name0 ref0 m0 post name ref m)
    as [-> ->].
Qed.

(** X13: when no two enabled mappings of the table share a control and
    channel, the place of a mapping in the table does not matter: a
    control change is dispatched to the enabled mapping that listens to
    it, and the handler called, if any, is the one of its target
    function. *)
Theorem distinct_controls_reach_their_mapping self c ch v now name ref m :
  NoDup (enabled_controls self) ->
  (name, ref) ∈ mappings self ->
  objects self !! ref = Some m ->
  listens_to c ch m ->
  let r := _handle_control_change (control_change ch c v) now self in
  r = dispatch_to name m v now self
  /\ (calls r.1 = calls self
      \/ exists res,
          calls r.1
          = calls self
            ++ [Invocation (target_function m) (_convert_midi_value v m) res]).
Proof.
  intros Hnodup Hin Hm Hl. cbv zeta.
  rewrite (handle_control_change_listener self c ch v now name ref m)
    by assumption.
  split; [reflexivity|]. apply dispatch_to_calls.
Qed.

End MoreLoop.

(* ===================================================================== *)
(** * Further properties: the port *)
(* ===================================================================== *)

Section PortFacts.

Context {W : Type} {Port : Type}.
Variable MIDI_AVAILABLE : bool.
Implicit Types (self : @Listener W Port).

(** Closes the cases of the outcome of a port method. *)
Ltac port_case :=
  repeat split; unfold not; intros;
  repeat match goal with
  | H : _ /\ _ |- _ => destruct H
  | H : exists _, _ |- _ => destruct H
  | H : _ \/ _ |- _ => destruct H
  end;
  simplify_eq; try done; try congruence; eauto 6;
  try match goal with
      | H : _ /\ _ -> False |- _ =>
          exfalso; apply H; split; [discriminate|eauto]
      end.

Lemma disconnect_cases (closed : result unit) self :
  (midi_input self = None /\ disconnect closed self = (self, None))
  \/ (exists p, midi_input self = Some p /\ closed = Returns tt
      /\ disconnect closed self
         = (port_emit Logger.INFO DisconnectedFromMidi
              (set_port None None self), None))
  \/ (exists p e, midi_input self = Some p /\ closed = Raises e
      /\ is_Exception e = true
      /\ disconnect closed self
         = (port_emit Logger.ERROR (ErrorDisconnecting e) self, None))
  \/ (exists p e, midi_input self = Some p /\ closed = Raises e
      /\ is_Exception e = false
      /\ disconnect closed self = (self, Some e)).
Proof.
  unfold disconnect. destruct (midi_input self) as [p|]; [|by left].
  right. destruct closed as [[]|e].
  - left. by exists p.
  - right. destruct (is_Exception e) eqn:He; [left|right]; by exists p, e.
Qed.

(** X14: the port and the name of the current port are set together and
    cleared together, whatever the transport does: every method of the
    port keeps this, so [is_connected] holds exactly when a port is
    held. *)
Theorem port_and_name_stay_together self :
  port_fields_agree self ->
  (forall closed, port_fields_agree (disconnect closed self).1)
  /\ (forall closed opened port_name,
        port_fields_agree
          (connect_to_port MIDI_AVAILABLE closed opened port_name self).1)
  /\ (forall names,
        port_fields_agree (list_available_ports MIDI_AVAILABLE names self).1)
  /\ (forall started, port_fields_agree (start_listening started self).1)
  /\ (forall joined, port_fields_agree (stop_listening joined self).1)
  /\ (forall events ending,
        port_fields_agree (run_midi_loop events ending self).1)
  /\ (is_connected self = true <-> midi_input self <> None).
Proof.
  intros Hagree.
  assert (Hdis : forall closed, port_fields_agree (disconnect closed self).1).
  { intros closed.
    destruct (disconnect_cases closed self)
      as [[_ ->]|[(p & _ & _ & ->)|[(p & e & _ & _ & _ & ->)
                                   |(p & e & _ & _ & _ & ->)]]];
      try exact Hagree.
    unfold port_fields_agree. simpl. tauto. }
  split; [exact Hdis|]. split.
  { intros closed opened port_name. unfold connect_to_port.
    destruct MIDI_AVAILABLE; simpl; [|exact Hagree].
    assert (Hfirst : exists s raised,
               match midi_input self with
               | Some _ => disconnect closed self
               | None => (self, None)
               end = (s, raised) /\ port_fields_agree s).
    { destruct (midi_input self).
      - pose proof (Hdis closed) as H.
        destruct (disconnect closed self) as [s raised]. by exists s, raised.
      - by exists self, None. }
    destruct Hfirst as (s & raised & -> & Hs).
    destruct raised as [e|].
    - by destruct (is_Exception e).
    - destruct opened as [p|e]; simpl.
      + unfold port_fields_agree. simpl. split; discriminate.
      + by destruct (is_Exception e). }
  split.
  { intros names. unfold list_available_ports.
    destruct MIDI_AVAILABLE; simpl; [|exact Hagree].
    destruct names as [l|e]; [exact Hagree|].
    by destruct (is_Exception e). }
  split.
  { intros started. unfold start_listening.
    destruct (midi_input self) eqn:Hin; [|exact Hagree].
    destruct (is_running (controller self)); [exact Hagree|].
    unfold port_fields_agree in *.
    destruct started; simpl; by rewrite Hin in *. }
  split.
  { intros joined. unfold stop_listening. simpl.
    destruct (midi_thread self); [|exact Hagree].
    destruct joined; exact Hagree. }
  split.
  { intros events ending. unfold run_midi_loop.
    by destruct (_midi_loop events ending (controller self)). }
  unfold is_connected. unfold port_fields_agree in Hagree.
  destruct (midi_input self) as [p|], (current_port self) as [n|];
    split; try done.
  - intros _. destruct Hagree as [_ H]. by specialize (H eq_refl).
Qed.

(** X15: [connect_to_port] returns [True] exactly when the libraries are
    available, the port opens, and closing the port held before did not
    raise past [Exception]; then the new port and its name are the
    current ones, also when closing the old port failed.  When the port
    does not open and the old one was closed, the controller is left
    without a connection. *)
Theorem connect_to_port_outcome (closed : result unit) (opened : result Port)
    (port_name : string) self :
  let r := connect_to_port MIDI_AVAILABLE closed opened port_name self in
  (r.2 = Returns true <->
   MIDI_AVAILABLE = true
   /\ (exists p, opened = Returns p)
   /\ ~ (midi_input self <> None
         /\ exists e, closed = Raises e /\ is_Exception e = false))
  /\ (forall p, r.2 = Returns true -> opened = Returns p ->
        midi_input r.1 = Some p /\ current_port r.1 = Some port_name
        /\ is_connected r.1 = true)
  /\ (forall e, MIDI_AVAILABLE = true -> opened = Raises e ->
        is_Exception e = true ->
        midi_input self = None \/ closed = Returns tt ->
        r.2 = Returns false /\ is_connected r.1 = false
        /\ midi_input r.1 = None)
  /\ controller r.1 = controller self.
Proof.
  cbv zeta. unfold connect_to_port, disconnect, is_connected.
  destruct MIDI_AVAILABLE; simpl; [|port_case].
  destruct (midi_input self) as [p0|] eqn:Hin; simpl.
  - destruct closed as [[]|e0]; simpl.
    + destruct opened as [p|e]; simpl; [port_case|].
      destruct (is_Exception e) eqn:He; simpl; port_case.
    + destruct (is_Exception e0) eqn:He0; simpl.
      * destruct opened as [p|e]; simpl; [port_case|].
        destruct (is_Exception e) eqn:He; simpl; port_case.
      * rewrite He0. simpl. port_case.
  - rewrite ?Hin. destruct opened as [p|e]; simpl; [port_case|].
    destruct (is_Exception e) eqn:He; simpl; rewrite ?Hin; port_case.
Qed.

Lemma midi_loop_is_running (events : list stream_event)
    (ending : stream_end) (c : @MIDIController W) :
  is_running (_midi_loop events ending c).1 = false.
Proof.
  unfold _midi_loop.
  destruct (_midi_loop_for events ending c) as [c' [e|]]; [|reflexivity].
  by destruct (is_Exception e).
Qed.

(** X16: [start_listening] returns [True] exactly when a port is held, the
    loop is not running and the thread starts; the running flag is then
    up, and when it returns [False] the controller is as it was.  A loop
    that has ended, for whatever reason, can be started again while the
    port is held, and so can one stopped by [stop_listening], also when
    the join raised.  When the thread cannot be started the exception
    leaves the call with the running flag up: the controller reports
    that it listens and refuses another [start_listening]. *)
Theorem start_listening_outcome (started : result unit) self :
  let r := start_listening started self in
  (r.2 = Returns true <->
   midi_input self <> None /\ is_running (controller self) = false
   /\ started = Returns tt)
  /\ (r.2 = Returns true -> is_running (controller r.1) = true)
  /\ (r.2 = Returns false -> controller r.1 = controller self)
  /\ (forall e, r.2 = Raises e ->
        started = Raises e
        /\ is_listening (controller r.1) = true
        /\ forall started', (start_listening started' r.1).2 = Returns false)
  /\ (forall events ending,
        (start_listening (Returns tt) (run_midi_loop events ending self).1).2
        = Returns true
        <-> midi_input self <> None)
  /\ (forall joined,
        (start_listening (Returns tt) (stop_listening joined self).1).2
        = Returns true
        <-> midi_input self <> None).
Proof.
  cbv zeta.
  assert (Hafter : forall self' : @Listener W Port,
             is_running (controller self') = false ->
             midi_input self' = midi_input self ->
             (start_listening (Returns tt) self').2 = Returns true
             <-> midi_input self <> None).
  { intros self' Hrun Hin. unfold start_listening. rewrite Hin, Hrun.
    destruct (midi_input self); simpl; port_case. }
  split; [|split; [|split; [|split; [|split]]]].
  - unfold start_listening.
    destruct (midi_input self), (is_running (controller self)),
      started as [[]|e]; simpl; port_case.
  - unfold start_listening.
    destruct (midi_input self), (is_running (controller self)),
      started as [[]|e]; simpl; port_case.
  - unfold start_listening.
    destruct (midi_input self), (is_running (controller self)),
      started as [[]|e]; simpl; port_case.
  - intros e. unfold start_listening, is_listening.
    destruct (midi_input self) eqn:Hin, (is_running (controller self)),
      started as [[]|e']; simpl; try discriminate.
    intros [= ->]. split; [reflexivity|]. split; [reflexivity|].
    intros started'. by rewrite Hin.
  - intros events ending. apply Hafter.
    + unfold run_midi_loop.
      pose proof (midi_loop_is_running events ending (controller self))
        as Hrun.
      by destruct (_midi_loop events ending (controller self)).
    + unfold run_midi_loop.
      by destruct (_midi_loop events ending (controller self)).
  - intros joined. apply Hafter.
    + unfold stop_listening. simpl.
      destruct (midi_thread self); [|reflexivity]. by destruct joined.
    + unfold stop_listening. simpl.
      destruct (midi_thread self); [|reflexivity]. by destruct joined.
Qed.

(** X17: [disconnect] does not stop the listener: after it the running
    flag is as before, so a controller that was listening still reports
    that it listens, although no port is held and [start_listening]
    refuses to start it. *)
Theorem disconnect_keeps_listener_running (closed : result unit) self :
  let r := disconnect closed self in
  controller r.1 = controller self
  /\ (closed = Returns tt ->
      midi_input r.1 = None /\ is_connected r.1 = false
      /\ forall started, (start_listening started r.1).2 = Returns false)
  /\ (midi_input self = None -> r = (self, None)).
Proof.
  cbv zeta. unfold disconnect, is_connected, start_listening.
  destruct (midi_input self) as [p|] eqn:Hin; simpl.
  - destruct closed as [[]|e]; simpl; [port_case|].
    destruct (is_Exception e); simpl; port_case.
  - rewrite Hin. port_case.
Qed.

End PortFacts.

(* ===================================================================== *)
(** * Further properties: repeated values and the default conversions *)
(* ===================================================================== *)

Section MoreValues.

Context {W : Type}.
Implicit Types (self : @MIDIController W).

(** A finite number minus itself is the positive zero. *)
Lemma sub_diag_SF (v : float) :
  SF_finite (Prim2SF v) -> Prim2SF (v - v) = S754_zero false.
Proof.
  intros Hv. rewrite sub_spec.
  destruct Hv as [s|s m e]; [by destruct s|].
  unfold SF64sub, SFsub. by rewrite Z.sub_diag.
Qed.

(** The threshold of the noise floor is above zero. *)
Lemma zero_below_threshold (y : float) : (0 <? Py.max 0.001 y)%float = true.
Proof.
  unfold Py.max. destruct (0.001 <? y)%float eqn:Hy; [|reflexivity].
  rewrite ltb_spec in *.
  change (Prim2SF 0) with (S754_zero false).
  assert (Ht : exists m e, Prim2SF 0.001 = S754_finite false m e)
    by (vm_compute; eauto).
  destruct Ht as (m0 & e0 & Ht). rewrite Ht in Hy.
  destruct (Prim2SF y) as [s|s| |s m e]; try destruct s; try done.
Qed.

Lemma below_noise_floor_same (v : float) :
  is_finite v = true -> below_noise_floor v v = true.
Proof.
  intros Hv. apply is_finite_SF in Hv. unfold below_noise_floor.
  assert (Hzero : abs (v - v) = 0%float).
  { apply Prim2SF_inj. rewrite abs_spec, (sub_diag_SF v Hv). reflexivity. }
  rewrite Hzero. apply zero_below_threshold.
Qed.

(** X18: an event that repeats the last delivered value of its function
    never reaches the handler, however long after the delivery it comes:
    a control that keeps sending the same value causes one call. *)
Theorem repeated_value_is_not_delivered self f value now :
  _last_values self !! f = Some value ->
  is_finite value = true ->
  let r := _call_control_handler f value now self in
  calls r.1 = calls self /\ world r.1 = world self /\ r.2 = None.
Proof.
  intros Hlast Hfin. cbv zeta.
  assert (Hi : insignificant f value self = true).
  { unfold insignificant. rewrite Hlast. by apply below_noise_floor_same. }
  destruct (call_control_handler_cases self f value now);
    try congruence; repeat split.
Qed.

(** X19: for each mapping of the default table the conversion needs no
    clamping: every raw value from 0 to 127 is converted into the target
    range, and a larger raw value to a larger target value. *)
Theorem default_conversion_stays_in_range name (m : MIDIMapping) (v : Z) :
  (name, m) ∈ default_mappings ->
  (0 <= v <= 127)%Z ->
  (target_min m <=? _convert_midi_value v m)%float = true
  /\ (_convert_midi_value v m <=? target_max m)%float = true
  /\ ((v < 127)%Z ->
      (_convert_midi_value v m <? _convert_midi_value (v + 1) m)%float = true).
Proof.
  intros Hin Hv.
  (* the table has fourteen entries: each is checked value by value *)
  assert (Hall : forallb
                   (fun entry : string * MIDIMapping =>
                      forallb
                        (fun v =>
                           (target_min entry.2
                            <=? _convert_midi_value v entry.2)%float
                           && (_convert_midi_value v entry.2
                               <=? target_max entry.2)%float
                           && ((v =? 127)%Z
                               || (_convert_midi_value v entry.2
                                   <? _convert_midi_value (v + 1)
                                        entry.2)%float))
                        (seqZ 0 128))
                   default_mappings = true)
    by (vm_compute; reflexivity).
  rewrite forallb_forall in Hall.
  specialize (Hall (name, m) (proj1 (list_elem_of_In _ _) Hin)).
  rewrite forallb_forall in Hall.
  assert (Hv' : In v (seqZ 0 128)).
  { apply list_elem_of_In, elem_of_seqZ. lia. }
  specialize (Hall v Hv'). simpl in Hall.
  apply andb_true_iff in Hall as [Hall Hinc].
  apply andb_true_iff in Hall as [Hlo Hhi].
  split; [exact Hlo|]. split; [exact Hhi|].
  intros Hlt. apply orb_true_iff in Hinc as [Heq|Hinc]; [|exact Hinc].
  apply Z.eqb_eq in Heq. lia.
Qed.

End MoreValues.

(* ===================================================================== *)
(** * Further properties: the viewer's handlers and the mapping info *)
(* ===================================================================== *)

Section MoreWiring.

Context {W : Type}.
Implicit Types (self : @MIDIController W).

(** With no throttle state for [f], a dispatch calls the handler. *)
Lemma first_dispatch_calls_handler self f (h : Handler W) value now :
  control_handlers self !! f = Some h ->
  _last_update_times self !! f = None ->
  _last_values self !! f = None ->
  calls (_call_control_handler f value now self).1
  = calls self ++ [Invocation f value (h value (world self)).1].
Proof.
  intros Hh Ht Hv. unfold _call_control_handler, throttled, insignificant.
  rewrite Hh, Ht, Hv.
  destruct (h value (world self)) as [[[]|e] w]; simpl; [done|].
  by destruct (is_Exception e).
Qed.

Lemma dispatch_to_calls_eq name m v now self :
  calls (dispatch_to name m v now self).1
  = calls (_call_control_handler (target_function m)
             (_convert_midi_value v m) now self).1.
Proof.
  unfold dispatch_to.
  by destruct (_call_control_handler _ _ _ _) as [s' [e|]].
Qed.

(** The facts about a default entry in the controller made for the
    viewer that are found by evaluation. *)
Ltac default_entry ref :=
  match goal with
  | |- exists h, control_handlers ?s !! ?f = Some h /\ _ =>
      let Hh := fresh "Hh" in
      assert (Hh : is_Some (control_handlers s !! f))
        by (vm_compute; eauto);
      destruct Hh as [h Hh]; exists h; split; [exact Hh|];
      rewrite (handle_control_change_listener s _ _ _ _ _ ref _
                 ltac:(apply (bool_decide_unpack _); vm_compute; exact I)
                 ltac:(vm_compute; repeat constructor)
                 ltac:(vm_compute; reflexivity)
                 ltac:(repeat split));
      rewrite dispatch_to_calls_eq;
      rewrite (first_dispatch_calls_handler s _ h _ _ Hh
                 ltac:(vm_compute; reflexivity)
                 ltac:(vm_compute; reflexivity));
      reflexivity
  end.

(** X20: the controller made for a window with a viewer has a handler for
    the target function of every mapping of the default table: the first
    control change on a default control calls exactly that handler with
    the converted value.  Without a viewer no handler is registered, and
    no control change calls anything. *)
Theorem elmo_controller_serves_defaults (MIDI_AVAILABLE : bool) (w : W) :
  (forall (glmol : ElmoHandlers W) name m v now,
      (name, m) ∈ default_mappings ->
      let self := create_elmo_midi_controller MIDI_AVAILABLE (Some glmol) w in
      exists h,
        control_handlers self !! target_function m = Some h
        /\ calls (_handle_control_change
                    (control_change (channel m) (control_number m) v)
                    now self).1
           = [Invocation (target_function m) (_convert_midi_value v m)
                (h (_convert_midi_value v m) w).1])
  /\ (forall c ch v now,
        let self := create_elmo_midi_controller MIDI_AVAILABLE None w in
        control_handlers self = ∅
        /\ calls (_handle_control_change (control_change ch c v) now self).1
           = []).
Proof.
  split.
  - intros glmol name m v now Hin. cbv zeta.
    unfold default_mappings in Hin.
    destruct MIDI_AVAILABLE;
      repeat (apply elem_of_cons in Hin as [Hin|Hin];
              [injection Hin as -> ->|]);
      try (apply elem_of_nil in Hin; destruct Hin).
    all: cbn [channel control_number target_function new_MIDIMapping].
    + default_entry 0%nat.
    + default_entry 1%nat.
    + default_entry 2%nat.
    + default_entry 3%nat.
    + default_entry 4%nat.
    + default_entry 5%nat.
    + default_entry 6%nat.
    + default_entry 7%nat.
    + default_entry 8%nat.
    + default_entry 9%nat.
    + default_entry 10%nat.
    + default_entry 11%nat.
    + default_entry 12%nat.
    + default_entry 13%nat.
    + default_entry 0%nat.
    + default_entry 1%nat.
    + default_entry 2%nat.
    + default_entry 3%nat.
    + default_entry 4%nat.
    + default_entry 5%nat.
    + default_entry 6%nat.
    + default_entry 7%nat.
    + default_entry 8%nat.
    + default_entry 9%nat.
    + default_entry 10%nat.
    + default_entry 11%nat.
    + default_entry 12%nat.
    + default_entry 13%nat.
  - intros c ch v now. cbv zeta.
    set (self := create_elmo_midi_controller MIDI_AVAILABLE None w).
    assert (Hempty : control_handlers self = ∅)
      by (unfold self; destruct MIDI_AVAILABLE; vm_compute; reflexivity).
    assert (Hcalls : calls self = [])
      by (unfold self; destruct MIDI_AVAILABLE; vm_compute; reflexivity).
    split; [exact Hempty|].
    destruct (handle_control_change_cases self c ch v now)
      as [[-> _]|(pre & name & ref & m & post & _ & _ & _ & _ & ->)];
      [exact Hcalls|].
    unfold dispatch_to, _call_control_handler.
    rewrite Hempty, lookup_empty. exact Hcalls.
Qed.

(** The loop of [get_mapping_info], from any dictionary built so far. *)
Lemma get_mapping_info_fold (objs : list MIDIMapping)
    (items : list (string * nat)) (info : list (string * mapping_info))
    (name : string) :
  NoDup items.*1 ->
  dict_get name
    (fold_left
       (fun info entry =>
          match objs !! snd entry with
          | Some mapping => dict_set (fst entry) (info_of mapping) info
          | None => info
          end)
       items info)
  = match dict_get name items ≫= (fun ref => objs !! ref) with
    | Some mapping => Some (info_of mapping)
    | None => dict_get name info
    end.
Proof.
  revert info. induction items as [|[k r] items IH]; intros info Hnodup;
    [reflexivity|].
  simpl in Hnodup. apply NoDup_cons in Hnodup as [Hk Hnodup].
  simpl. rewrite IH by exact Hnodup.
  destruct (String.eqb_spec name k) as [->|Hne]; simpl.
  - apply dict_get_None in Hk. rewrite Hk. simpl.
    destruct (objs !! r) as [mapping|]; [|reflexivity].
    apply dict_get_set_eq.
  - destruct (dict_get name items ≫= (fun ref => objs !! ref));
      [reflexivity|].
    destruct (objs !! r); [|reflexivity]. by apply dict_get_set_ne.
Qed.

(** X21: [get_mapping_info] has an entry for a name exactly when the table
    has the name, and the entry describes the mapping object as it is
    now: after [disable_mapping] it reads [enabled] false. *)
Theorem get_mapping_info_describes_table self name :
  unique_names self ->
  dict_get name (get_mapping_info self)
  = info_of <$> (dict_get name (mappings self) ≫= (fun ref => objects self !! ref))
  /\ (forall ref m,
        dict_get name (mappings self) = Some ref ->
        objects self !! ref = Some m ->
        dict_get name (get_mapping_info (disable_mapping name self))
        = Some (info_of (set_enabled false m))).
Proof.
  intros Hnodup.
  assert (Hget : forall s : @MIDIController W,
             unique_names s ->
             dict_get name (get_mapping_info s)
             = info_of <$> (dict_get name (mappings s)
                            ≫= (fun ref => objects s !! ref))).
  { intros s Hs. unfold get_mapping_info.
    rewrite get_mapping_info_fold by exact Hs.
    by destruct (dict_get name (mappings s) ≫= _). }
  split; [by apply Hget|].
  intros ref m Hname Hm.
  rewrite Hget.
  - unfold disable_mapping. rewrite Hname. simpl. rewrite Hname. simpl.
    rewrite list_lookup_alter_eq, Hm. reflexivity.
  - unfold unique_names, disable_mapping. by rewrite Hname.
Qed.

End MoreWiring.

(* ===================================================================== *)
(** * Further properties: the logger *)
(* ===================================================================== *)

Section MoreLogger.

Variable str_lower : string -> string.
Variable obj : Type.
Variable json_loads : string -> result (Logger.payload obj).
Variable json_dumps : Logger.payload obj -> result string.

(** The characters of a prefix, and of a substring, occur in the
    string. *)
Lemma prefix_chars (needle s : string) c :
  String.prefix needle s = true ->
  c ∈ Text.chars needle -> c ∈ Text.chars s.
Proof.
  revert needle. induction s as [|b s IH]; intros [|a needle]; simpl;
    try discriminate.
  - intros _ Hin. by apply elem_of_nil in Hin.
  - intros _ Hin. by apply elem_of_nil in Hin.
  - destruct (Ascii.ascii_dec a b) as [->|]; [|discriminate].
    intros Hp Hin.
    apply elem_of_cons in Hin as [->|Hin]; [by left|].
    right. by apply IH with needle.
Qed.

Lemma contains_chars (needle s : string) c :
  contains needle s = true ->
  c ∈ Text.chars needle -> c ∈ Text.chars s.
Proof.
  induction s as [|b s IH].
  - cbn [contains]. rewrite orb_false_r. apply prefix_chars.
  - cbn [contains]. intros Hc Hin. apply orb_true_iff in Hc as [Hp|Hc].
    + by apply (prefix_chars needle (String b s)).
    + simpl. right. by apply IH.
Qed.

(** X22: the tag of a message is decided by its lower-cased text: the
    chart for [success rate]; else the check mark for [updat], [success]
    or [passed], also when the text speaks of a failure or an error;
    else the cross for [fail] or [error]; else a blank.  The tests for
    [Enabl] and [Setting up] are made on the lower-cased text too and
    never succeed. *)
Theorem qc_tag_is_decided_by_lowered_text (msg : string) :
  Text.lowers str_lower ->
  Logger.get_qc_tag str_lower msg
  = let msg := str_lower msg in
    if contains "success rate" msg then "📊"
    else if contains "updat" msg || contains "success" msg
            || contains "passed" msg
    then "✅"
    else if contains "fail" msg || contains "error" msg then "❌"
    else " ".
Proof.
  intros Hlower. unfold Logger.get_qc_tag. cbv zeta.
  assert (Hdead : forall needle c,
             c ∈ Text.chars needle -> Text.is_ascii_upper c = true ->
             contains needle (str_lower msg) = false).
  { intros needle c Hc Hup.
    destruct (contains needle (str_lower msg)) eqn:Hcont; [|reflexivity].
    pose proof (Hlower msg c (contains_chars _ _ _ Hcont Hc)). congruence. }
  rewrite (Hdead "Enabl" (Ascii.ascii_of_nat 69)) by (vm_compute; repeat constructor).
  rewrite (Hdead "Setting up" (Ascii.ascii_of_nat 83)) by (vm_compute; repeat constructor).
  by rewrite !orb_false_r.
Qed.

(** X23: [Logger.json] calls the logger at most once, and not at all when
    an exception leaves it; an exception leaves it only when
    [json.loads] raises something other than [JSONDecodeError] or
    [json.dumps] something other than [TypeError] and [ValueError]. *)
Theorem json_logs_at_most_once (data : Logger.payload obj) (silent : bool)
    (sink : list Logger.log_call) :
  let r := Logger.json str_lower obj json_loads json_dumps data silent sink in
  (r.1 = sink \/ exists call, r.1 = sink ++ [call] /\ r.2 = None)
  /\ (forall e, r.2 = Some e ->
        r.1 = sink
        /\ ((exists s, data = Logger.PyStr s /\ json_loads s = Raises e
                       /\ is_JSONDecodeError e = false)
            \/ (exists data', json_dumps data' = Raises e
                              /\ is_TypeError_or_ValueError e = false)))
  /\ (silent = true -> r.2 = None -> r.1 <> sink ->
      exists call, r.1 = sink ++ [call]
                   /\ Logger.levelno call <> Logger.INFO).
Proof.
  cbv zeta. unfold Logger.json, Logger.error, Logger.message. simpl.
  assert (Hne : forall c : Logger.log_call, sink ++ [c] <> sink).
  { intros c H. apply (f_equal length) in H. rewrite length_app in H.
    simpl in H. lia. }
  destruct data as [s|o].
  - destruct (json_loads s) as [data'|e] eqn:Hloads.
    + destruct (json_dumps data') as [text|e] eqn:Hdumps.
      * destruct silent; simpl; (split; [eauto|]);
          (split; [discriminate|]); [done|discriminate].
      * destruct (is_TypeError_or_ValueError e) eqn:He; simpl.
        -- split; [eauto|]. split; [discriminate|].
           intros _ _ _. eexists. split; [reflexivity|]. discriminate.
        -- split; [eauto|]. split; [|done].
           intros e' [= <-]. split; [reflexivity|]. right. eauto.
    + destruct (is_JSONDecodeError e) eqn:He; simpl.
      * split; [eauto|]. split; [discriminate|].
        intros _ _ _. eexists. split; [reflexivity|]. discriminate.
      * split; [eauto|]. split; [|done].
        intros e' [= <-]. split; [reflexivity|]. left. eauto.
  - destruct (json_dumps (Logger.PyObj o)) as [text|e] eqn:Hdumps.
    + destruct silent; simpl; (split; [eauto|]);
        (split; [discriminate|]); [done|discriminate].
    + destruct (is_TypeError_or_ValueError e) eqn:He; simpl.
      * split; [eauto|]. split; [discriminate|].
        intros _ _ _. eexists. split; [reflexivity|]. discriminate.
      * split; [eauto|]. split; [|done].
        intros e' [= <-]. split; [reflexivity|]. right. eauto.
Qed.

End MoreLogger.

(* ===================================================================== *)
(** * Further properties: examples *)
(* ===================================================================== *)

Section MoreExamples.

Import Examples.

Lemma dispatch_other_function_witness :
  "fog_density" <> "camera_zoom"
  /\ throttled "camera_zoom" 1000.01
       (_call_control_handler "fog_density" 0.1 1000.005
          (zoom_controller_after_delivery accept)).1
     = throttled "camera_zoom" 1000.01 (zoom_controller_after_delivery accept).
Proof.
  assert (Hne : "fog_density" <> "camera_zoom") by discriminate.
  split; [exact Hne|].
  exact (proj1 (dispatch_other_function
                  (zoom_controller_after_delivery accept)
                  "camera_zoom" "fog_density" 0.1 1000.005 Hne) 1000.01%float).
Defined.

Lemma clear_throttle_state_delivers_next_witness :
  insignificant "camera_zoom" (-110.0)
    (zoom_controller_after_delivery accept) = true
  /\ calls (_call_control_handler "camera_zoom" (-110.0) 1000.01
              (clear_throttle_state (zoom_controller_after_delivery accept))).1
     = calls (zoom_controller_after_delivery accept)
       ++ [Invocation "camera_zoom" (-110.0) (Returns tt)].
Proof.
  split; [vm_compute; reflexivity|].
  assert (Hh : control_handlers (zoom_controller_after_delivery accept)
               !! "camera_zoom" = Some accept) by (vm_compute; reflexivity).
  exact (proj1 (clear_throttle_state_delivers_next
                  (zoom_controller_after_delivery accept) "camera_zoom"
                  accept (-110.0) 1000.01 Hh)).
Defined.

Lemma unhandled_control_change_is_skipped_witness :
  calls (_handle_control_change (control_change 0 1 64) 1000.0
           (__init__ true 0%nat)).1
  = calls (__init__ true 0%nat).
Proof.
  assert (Hempty : control_handlers (__init__ true 0%nat) = ∅)
    by (vm_compute; reflexivity).
  assert (Hnone : forall (name : string) (ref : nat) (m : MIDIMapping),
             (name, ref) ∈ mappings (__init__ true 0%nat) ->
             objects (__init__ true 0%nat) !! ref = Some m ->
             listens_to 1 0 m ->
             control_handlers (__init__ true 0%nat) !! target_function m
             = None).
  { intros name ref m _ _ _. rewrite Hempty. apply lookup_empty. }
  exact (proj1 (proj2 (unhandled_control_change_is_skipped
                         (__init__ true 0%nat) 1 0 64 1000.0 Hnone))).
Defined.

Lemma set_throttle_interval_governs_next_event_witness :
  (1000.5 - 1000.0 <? 1.0)%float = true
  /\ calls (_call_control_handler "camera_zoom" (-50.0) 1000.5
              (set_throttle_interval "camera_zoom" 1.0
                 (zoom_controller_after_delivery accept))).1
     = calls (zoom_controller_after_delivery accept).
Proof.
  assert (Hlt : (1000.5 - 1000.0 <? 1.0)%float = true)
    by (vm_compute; reflexivity).
  assert (Hh : control_handlers (zoom_controller_after_delivery accept)
               !! "camera_zoom" = Some accept) by (vm_compute; reflexivity).
  assert (Hlast : _last_update_times (zoom_controller_after_delivery accept)
                  !! "camera_zoom" = Some 1000.0%float)
    by (vm_compute; reflexivity).
  split; [exact Hlt|].
  exact (proj1 (proj1 (set_throttle_interval_governs_next_event
                         (zoom_controller_after_delivery accept)
                         "camera_zoom" 1.0 accept (-50.0) 1000.5 1000.0
                         Hh Hlast) Hlt)).
Defined.

Lemma throttle_state_stays_paired_witness :
  throttle_state_paired (__init__ true 0%nat)
  /\ throttle_state_paired
       (_midi_loop [yields 1000.0 (control_change 0 1 64)] StopIteration
          (__init__ true 0%nat)).1.
Proof.
  pose proof (throttle_state_stays_paired
                [yields 1000.0 (control_change 0 1 64)] StopIteration
                (__init__ true 0%nat)) as [Hinit Hkeep].
  split; [exact (Hinit true 0%nat)|].
  exact (proj1 (Hkeep (Hinit true 0%nat))).
Defined.

Lemma other_messages_have_no_effect_witness :
  _midi_loop [yields 1000.0 (note_on 0 60 100); yields 1000.5 (note_off 0 60 0);
              yields 1001.0 (other_message "pitchwheel")]
    StopIteration (listening_controller accept)
  = _midi_loop [] StopIteration (listening_controller accept).
Proof.
  assert (Hrun : is_running (listening_controller accept) = true)
    by (vm_compute; reflexivity).
  apply (other_messages_have_no_effect _ StopIteration
           (listening_controller accept) Hrun).
  repeat constructor.
Defined.

Lemma stopped_loop_dispatches_nothing_witness :
  calls (_midi_loop [stop_flag_written;
                     yields 1000.0 (control_change 0 1 64);
                     start_flag_written;
                     yields 1001.0 (control_change 0 1 127)]
           StopIteration (listening_controller accept)).1
  = calls (listening_controller accept).
Proof.
  assert (Hflag : meets_flag_up (is_running (listening_controller accept))
                    [stop_flag_written;
                     yields 1000.0 (control_change 0 1 64);
                     start_flag_written;
                     yields 1001.0 (control_change 0 1 127)]
                  = false) by (vm_compute; reflexivity).
  exact (proj1 (stopped_loop_dispatches_nothing _ StopIteration
                  (listening_controller accept) Hflag)).
Defined.

(** A loop that was stopped and is still blocked on the port takes up
    its work when the caller starts the listener again before the next
    message arrives. *)
Lemma restarted_loop_dispatches_again :
  let r :=
    _midi_loop
      [stop_flag_written; start_flag_written;
       yields 1000.0 (control_change 0 1 64)]
      StopIteration (listening_controller accept) in
  meets_flag_up (is_running (listening_controller accept))
    [stop_flag_written; start_flag_written;
     yields 1000.0 (control_change 0 1 64)] = true
  /\ calls r.1
     = [Invocation "camera_zoom" (-108.34645669291339) (Returns tt)].
Proof. vm_compute. repeat split. Qed.



Lemma distinct_controls_reach_their_mapping_witness :
  _handle_control_change (control_change 0 10 64) 1000.0
    (zoom_controller accept)
  = dispatch_to "isosurface_level"
      (new_MIDIMapping 10 0 KNOB "isosurface_level" 0.01 1.0
         "Isosurface Level")
      64 1000.0 (zoom_controller accept).
Proof.
  assert (Hnodup : NoDup (enabled_controls (zoom_controller accept)))
    by (apply (bool_decide_unpack _); vm_compute; exact I).
  assert (Hin : (("isosurface_level", 13%nat) : string * nat)
                ∈ mappings (zoom_controller accept))
    by (vm_compute; repeat constructor).
  assert (Hm : objects (zoom_controller accept) !! 13%nat
               = Some (new_MIDIMapping 10 0 KNOB "isosurface_level" 0.01 1.0
                         "Isosurface Level"))
    by (vm_compute; reflexivity).
  assert (Hl : listens_to 10 0
                 (new_MIDIMapping 10 0 KNOB "isosurface_level" 0.01 1.0
                    "Isosurface Level")) by (repeat split).
  exact (proj1 (distinct_controls_reach_their_mapping
                  (zoom_controller accept) 10 0 64 1000.0
                  "isosurface_level" 13%nat _ Hnodup Hin Hm Hl)).
Defined.

Lemma repeated_value_is_not_delivered_witness :
  throttled "camera_zoom" 5000.0 (zoom_controller_after_delivery accept) = None
  /\ calls (_call_control_handler "camera_zoom" (-110.0) 5000.0
              (zoom_controller_after_delivery accept)).1
     = calls (zoom_controller_after_delivery accept).
Proof.
  split; [vm_compute; reflexivity|].
  assert (Hlast : _last_values (zoom_controller_after_delivery accept)
                  !! "camera_zoom" = Some (-110.0)%float)
    by (vm_compute; reflexivity).
  assert (Hfin : is_finite (-110.0) = true) by (vm_compute; reflexivity).
  exact (proj1 (repeated_value_is_not_delivered
                  (zoom_controller_after_delivery accept) "camera_zoom"
                  (-110.0) 5000.0 Hlast Hfin)).
Defined.

Lemma default_conversion_stays_in_range_witness :
  (target_min zoom_mapping <=? _convert_midi_value 64 zoom_mapping)%float = true
  /\ (_convert_midi_value 64 zoom_mapping <=? target_max zoom_mapping)%float
     = true.
Proof.
  assert (Hin : ("zoom", zoom_mapping) ∈ default_mappings)
    by (vm_compute; repeat constructor).
  destruct (default_conversion_stays_in_range "zoom" zoom_mapping 64 Hin
              ltac:(lia)) as (Hlo & Hhi & _).
  split; assumption.
Defined.

Lemma get_mapping_info_describes_table_witness :
  dict_get "zoom" (get_mapping_info (disable_mapping "zoom"
                                       (zoom_controller accept)))
  = Some (info_of (set_enabled false zoom_mapping)).
Proof.
  assert (Hunique : unique_names (zoom_controller accept))
    by (apply (bool_decide_unpack _); vm_compute; exact I).
  assert (Hname : dict_get "zoom" (mappings (zoom_controller accept))
                  = Some 0%nat) by (vm_compute; reflexivity).
  assert (Hm : objects (zoom_controller accept) !! 0%nat = Some zoom_mapping)
    by (vm_compute; reflexivity).
  exact (proj2 (get_mapping_info_describes_table (zoom_controller accept)
                  "zoom" Hunique) 0%nat zoom_mapping Hname Hm).
Defined.

Lemma port_and_name_stay_together_witness :
  port_fields_agree
    (connect_to_port true (Returns tt) (Returns 2%nat) "Launch Control"
       connected_listener).1
  /\ port_fields_agree
       (connect_to_port true (Returns tt)
          (Raises (Exn OSError "unknown port")) "Launch Control"
          connected_listener).1.
Proof.
  assert (Hagree : port_fields_agree connected_listener)
    by (split; discriminate).
  pose proof (proj1 (proj2 (port_and_name_stay_together true
                              connected_listener Hagree))) as H.
  split; apply H.
Defined.

Lemma ascii_lower_lowers : Text.lowers ascii_lower.
Proof.
  intros s c. induction s as [|a s IH]; simpl.
  - intros H. apply elem_of_nil in H. destruct H.
  - intros H. apply elem_of_cons in H as [->|H]; [|by apply IH].
    destruct a as [[] [] [] [] [] [] [] []]; vm_compute; reflexivity.
Qed.

Lemma qc_tag_is_decided_by_lowered_text_witness :
  Logger.get_qc_tag ascii_lower "Enabled mapping: zoom" = " "
  /\ Logger.get_qc_tag ascii_lower "Error updating the view" = "✅".
Proof.
  split.
  - rewrite (qc_tag_is_decided_by_lowered_text ascii_lower
               "Enabled mapping: zoom" ascii_lower_lowers).
    vm_compute. reflexivity.
  - rewrite (qc_tag_is_decided_by_lowered_text ascii_lower
               "Error updating the view" ascii_lower_lowers).
    vm_compute. reflexivity.
Defined.

End MoreExamples.
